(** * kvstorage-srv: the storage package

    A shallow embedding of [storage/storage.go]: an in-memory key-value
    cache with time-based expiration, a janitor that sweeps expired items
    and a gob snapshot that can be saved and merged back.

    Conventions of the embedding.
    - [int64] and [time.Duration] are [Z]; the only arithmetic of the
      package that can leave the 64-bit range is the expiry computed in
      [Set], and it is wrapped with [wrap64].
    - [time.Now().UnixNano()] is an explicit argument [now] of every
      operation that reads the clock.
    - [map[string]Item] is a [gmap string Item]; a [range] loop folds over
      an enumeration of the map, and the loop bodies are stated over any
      list so that their results can be shown independent of Go's
      unspecified iteration order.
    - Every method body runs under [s.mu]; one call is one atomic
      transition of the storage, so the mutex does not appear.
    - [encoding/gob] is not part of the repository: its registry, encoder
      and decoder are parameters (class [Gob]). *)

From Stdlib Require Import ZArith Lia.
From stdpp Require Import gmap strings list fin_maps.

#[local] Open Scope Z_scope.

(** ** Machine integers *)

Definition wrap64 (z : Z) : Z := (z + 2 ^ 63) mod 2 ^ 64 - 2 ^ 63.

Definition MaxInt64 : Z := 2 ^ 63 - 1.

(** ** Constants *)

Definition NoExpiration : Z := -1.
Definition DefaultExpiration : Z := 0.

(** Go's [error] as returned by this package: [nil] or a message. *)
Definition error := option string.

Section Storage.

(** The dynamic values an [interface{}] can hold; [None] is the nil
    interface. *)
Context {Value : Type}.

(** ** Data model *)

Record Item := mkItem {
  Object : option Value;
  Expiration : Z
}.

(** The [stop] channel of the janitor is unbuffered; what matters of it is
    whether a goroutine is receiving on it, which [routine] of [Process]
    below records. *)
Record janitor := mkJanitor {
  Interval : Z
}.

Record Storage := mkStorage {
  filePath : string;
  defaultExpiration : Z;
  items : gmap string Item;
  janitor_of : option janitor
}.

Definition with_items (s : Storage) (m : gmap string Item) : Storage :=
  {| filePath := filePath s;
     defaultExpiration := defaultExpiration s;
     items := m;
     janitor_of := janitor_of s |}.

(** [func (item *Item) Expired() bool] *)
Definition Expired (item : Item) (now : Z) : bool :=
  if Expiration item =? 0 then false
  else now >? Expiration item.

(** The test inlined in [Get], [Items] and [DeleteExpired]:
    [v.Expiration > 0 && now > v.Expiration]. *)
Definition stale (item : Item) (now : Z) : bool :=
  (Expiration item >? 0) && (now >? Expiration item).

(** ** Writes *)

(** [time.Now().Add(duration).UnixNano()] *)
Definition deadline (now duration : Z) : Z := wrap64 (now + duration).

(** [func (s *Storage) Set(key, value, duration)]; [Set] is reserved in
    Rocq, hence the underscore. *)
Definition Set_ (s : Storage) (key : string) (value : option Value)
    (duration : Z) (now : Z) : Storage :=
  let duration :=
    if duration =? DefaultExpiration then defaultExpiration s else duration in
  let exp := if duration >? 0 then deadline now duration else 0 in
  with_items s (<[key := {| Object := value; Expiration := exp |}]> (items s)).

(** [func (s *Storage) set(key, value, duration)], the same body without
    the lock. *)
Definition set (s : Storage) (key : string) (value : option Value)
    (duration : Z) (now : Z) : Storage :=
  let duration :=
    if duration =? DefaultExpiration then defaultExpiration s else duration in
  let exp := if duration >? 0 then deadline now duration else 0 in
  with_items s (<[key := {| Object := value; Expiration := exp |}]> (items s)).

Definition already_exists (key : string) : string :=
  "item " +:+ key +:+ " already exists".

(** [func (s *Storage) Add(key, value, duration) error] *)
Definition Add (s : Storage) (key : string) (value : option Value)
    (duration : Z) (now : Z) : Storage * error :=
  match items s !! key with
  | Some _ => (s, Some (already_exists key))
  | None => (set s key value duration now, None)
  end.

(** [func (s *Storage) Delete(key) bool] *)
Definition Delete (s : Storage) (key : string) : Storage * bool :=
  match items s !! key with
  | Some _ => (with_items s (delete key (items s)), true)
  | None => (s, false)
  end.

(** ** Reads *)

(** [func (s *Storage) Get(key) (interface{}, bool)] *)
Definition Get (s : Storage) (key : string) (now : Z) : option Value * bool :=
  match items s !! key with
  | None => (None, false)
  | Some item =>
      if (Expiration item >? 0) && (now >? Expiration item)
      then (None, false)
      else (Object item, true)
  end.

(** The body of the loop of [Items], run over an enumeration [l] of the
    table, filling [m]. *)
Definition Items_loop (now : Z) (l : list (string * Item))
    (m : gmap string Item) : gmap string Item :=
  foldl (fun m kv =>
           if (Expiration kv.2 >? 0) && (now >? Expiration kv.2)
           then m
           else <[kv.1 := kv.2]> m) m l.

(** [func (s *Storage) Items() map[string]Item] *)
Definition Items (s : Storage) (now : Z) : gmap string Item :=
  Items_loop now (map_to_list (items s)) ∅.

(** [func (s *Storage) ItemCount() int] *)
Definition ItemCount (s : Storage) : Z := Z.of_nat (size (items s)).

(** The loop of [DeleteExpired] over an enumeration [l] of the table. *)
Definition DeleteExpired_loop (now : Z) (l : list (string * Item))
    (m : gmap string Item) : gmap string Item :=
  foldl (fun m kv =>
           if (Expiration kv.2 >? 0) && (now >? Expiration kv.2)
           then delete kv.1 m
           else m) m l.

(** [func (s *Storage) DeleteExpired()] *)
Definition DeleteExpired (s : Storage) (now : Z) : Storage :=
  with_items s (DeleteExpired_loop now (map_to_list (items s)) (items s)).

(** ** Construction *)

(** [func newStorage(de, m) *Storage] *)
Definition newStorage (de : Z) (m : gmap string Item) : Storage :=
  let de := if de =? 0 then NoExpiration else de in
  {| filePath := ""; defaultExpiration := de; items := m; janitor_of := None |}.

End Storage.

Arguments Item : clear implicits.
Arguments Storage : clear implicits.

(** ** Persistence

    [Save] and [Load] drive [encoding/gob], which lives outside the
    repository.  What the package uses of it is collected here: the
    process-wide table of registered types, [gob.Register],
    [Encoder.Encode] on a [map[string]Item] and [Decoder.Decode] into
    one.  [gob_Register] is [gob.Register] on a value that has a dynamic
    type; it is [None] when [Register] panics because names and types do
    not match one to one, and then leaves the table as it was.
    [gob_Encode] is what the encoder produces for the writer, or its
    error.  [gob_Decode] returns the map as the decoder left it together
    with the error, since [Decode] fills the caller's map in place and may
    fail half way. *)

Class Gob (Value : Type) := {
  Stream : Type;
  Registry : Type;
  gob_Register : Registry -> Value -> option Registry;
  gob_Encode : Registry -> gmap string (Item Value) -> Stream + string;
  gob_Decode : Registry -> Stream -> gmap string (Item Value) * error
}.

Section Persistence.

Context {Value : Type} {G : Gob Value}.

(** How [Save] ends: it panics inside [gob.Register], it returns an error,
    or it returns [nil] after the writer took the bytes. *)
Inductive saved :=
| Panicked
| Failed (e : string)
| Wrote (bytes : Stream).

(** How a call that may panic ends. *)
Inductive returned :=
| Panic
| Return (err : error).

(** The loop of [Save]: [for _, v := range m { gob.Register(v.Object) }],
    with the registry it leaves and whether it ran to its end.
    [gob.Register] starts with [reflect.TypeOf(value).String()], which
    dereferences nil when [v.Object] is the nil interface: the loop panics
    there, and [Save] has no [recover].  Which values were registered before
    a panic depends on the order of the range; that there is a panic does
    not. *)
Fixpoint Save_loop (l : list (string * Item Value)) (reg : Registry)
    : Registry * bool :=
  match l with
  | [] => (reg, true)
  | kv :: l =>
      match Object kv.2 with
      | None => (reg, false)
      | Some v =>
          match gob_Register reg v with
          | None => (reg, false)
          | Some reg => Save_loop l reg
          end
      end
  end.

(** [func (s *Storage) Save(w io.Writer) error]; [wrote] is the error of
    the writer when the encoder hands it the bytes ([nil] when it takes
    them), which [enc.Encode] returns.  The result is the registry after
    the call and how the call ended. *)
Definition Save (s : Storage Value) (now : Z) (reg : Registry)
    (wrote : error) : Registry * saved :=
  let m := Items s now in
  match Save_loop (map_to_list m) reg with
  | (reg, false) => (reg, Panicked)
  | (reg, true) =>
      (reg,
       match gob_Encode reg m with
       | inr e => Failed e
       | inl bytes =>
           match wrote with
           | Some e => Failed e
           | None => Wrote bytes
           end
       end)
  end.

(** [func (s *Storage) SaveFile(filename) error]; [created] is the error of
    [os.Create], [wrote] the one of the write to the file and [closed] the
    one of [f.Close].  The result carries the bytes the file received when
    the write went through. *)
Definition SaveFile (s : Storage Value) (now : Z) (reg : Registry)
    (created wrote closed : error) : Registry * option Stream * returned :=
  match created with
  | Some e => (reg, None, Return (Some e))
  | None =>
      match Save s now reg wrote with
      | (reg, Panicked) => (reg, None, Panic)
      | (reg, Failed e) => (reg, None, Return (Some e))
      | (reg, Wrote bytes) => (reg, Some bytes, Return closed)
      end
  end.

(** The loop of [Load]: [for k, v := range items { s.items[k] = v }]. *)
Definition Load_loop (l : list (string * Item Value))
    (m : gmap string (Item Value)) : gmap string (Item Value) :=
  foldl (fun m kv => <[kv.1 := kv.2]> m) m l.

(** [func (s *Storage) Load(r io.Reader) error]; [r] is what the reader
    yields from where it stands when [Load] is called.  [Load] reads it
    off the reader: a later call on the same reader is a call on what is
    left of it, another stream. *)
Definition Load (s : Storage Value) (r : Stream) (reg : Registry)
    : Storage Value * error :=
  let '(decoded, err) := gob_Decode reg r in
  match err with
  | None => (with_items s (Load_loop (map_to_list decoded) (items s)), None)
  | Some e => (s, Some e)
  end.

(** [func (s *Storage) LoadFile(filename) error]; [opened] is what
    [os.Open] gave, the contents of the file or an error. *)
Definition LoadFile (s : Storage Value) (opened : Stream + string)
    (closed : error) (reg : Registry) : Storage Value * error :=
  match opened with
  | inr e => (s, Some e)
  | inl r =>
      match Load s r reg with
      | (s, Some e) => (s, Some e)
      | (s, None) => (s, closed)
      end
  end.

(** ** The janitor and the life of a cache

    The goroutine started by [runJanitor] and the finalizer installed by
    [runtime.SetFinalizer] live outside the [Storage] value; a [Process]
    holds them next to it, with gob's registry. *)

Inductive goroutine := Running | Stopped.

Record Process := mkProcess {
  store : Storage Value;
  routine : option goroutine;
  finalizer : bool;
  types : Registry
}.

(** [func runJanitor(s, interval)]: [s.janitor = j; go j.Run(s)]. *)
Definition runJanitor (s : Storage Value) (interval : Z)
    : Storage Value * goroutine :=
  ({| filePath := filePath s;
      defaultExpiration := defaultExpiration s;
      items := items s;
      janitor_of := Some {| Interval := interval |} |}, Running).

(** [func newsWithJanitor(de, ci, m) *Storage] *)
Definition newsWithJanitor (de ci : Z) (m : gmap string (Item Value))
    : Storage Value * option goroutine * bool :=
  let s := newStorage de m in
  if ci >? 0 then
    let '(s, g) := runJanitor s ci in
    (s, Some g, true)
  else (s, None, false).

(** [func New(defaultExpiration, cleanupInterval, DBSize) *Storage], in a
    process whose gob registry is [reg]. *)
Definition New (defaultExpiration cleanupInterval : Z) (DBSize : Z)
    (reg : Registry) : Process :=
  let '(s, g, f) := newsWithJanitor defaultExpiration cleanupInterval ∅ in
  {| store := s; routine := g; finalizer := f; types := reg |}.

(** [func stopJanitor(s)]: [s.janitor.stop <- true].  The send on the
    unbuffered channel completes when the running goroutine receives it and
    returns; with a nil [s.janitor] it panics and with no receiver it
    blocks, both [None]. *)
Definition stopJanitor (p : Process) : option Process :=
  match janitor_of (store p), routine p with
  | Some _, Some Running =>
      Some {| store := store p; routine := Some Stopped;
              finalizer := finalizer p; types := types p |}
  | _, _ => None
  end.

(** The exported operations on a [Storage], as a caller outside the
    package can invoke them.  ([Item.Expired] and [New] do not act on an
    existing storage.) *)
Inductive call :=
| CSet (key : string) (value : option Value) (duration : Z)
| CAdd (key : string) (value : option Value) (duration : Z)
| CDelete (key : string)
| CGet (key : string)
| CItems
| CItemCount
| CDeleteExpired
| CSave (wrote : error)
| CSaveFile (created wrote closed : error)
| CLoad (r : Stream)
| CLoadFile (opened : Stream + string) (closed : error).

Definition with_store (p : Process) (s : Storage Value) : Process :=
  {| store := s; routine := routine p; finalizer := finalizer p;
     types := types p |}.

Definition with_types (p : Process) (reg : Registry) : Process :=
  {| store := store p; routine := routine p; finalizer := finalizer p;
     types := reg |}.

(** The effect of one exported call on the process (results dropped).  A
    [Save] that panics unwinds to its caller with the read lock released
    by the deferred [RUnlock]; what it registered before stays
    registered. *)
Definition exec_call (p : Process) (c : call) (now : Z) : Process :=
  match c with
  | CSet key value duration => with_store p (Set_ (store p) key value duration now)
  | CAdd key value duration => with_store p (Add (store p) key value duration now).1
  | CDelete key => with_store p (Delete (store p) key).1
  | CGet _ | CItems | CItemCount => p
  | CDeleteExpired => with_store p (DeleteExpired (store p) now)
  | CSave wrote => with_types p (Save (store p) now (types p) wrote).1
  | CSaveFile created wrote closed =>
      with_types p
        (SaveFile (store p) now (types p) created wrote closed).1.1
  | CLoad r => with_store p (Load (store p) r (types p)).1
  | CLoadFile opened closed =>
      with_store p (LoadFile (store p) opened closed (types p)).1
  end.

(** What can happen to a process: a caller invokes an exported operation,
    the janitor's ticker fires ([case <-ticker.C: s.DeleteExpired()]), or
    the garbage collector runs the finalizer.  The collector runs a
    finalizer only once its object is unreachable, and the goroutine
    started by [go j.Run(s)] holds [s] for as long as it runs: while the
    janitor is running the finalizer set on [s] is not run. *)
Inductive event :=
| Call (c : call) (now : Z)
| Tick (now : Z)
| Finalize.

Definition step (p : Process) (e : event) : option Process :=
  match e with
  | Call c now => Some (exec_call p c now)
  | Tick now =>
      match routine p with
      | Some Running => Some (with_store p (DeleteExpired (store p) now))
      | _ => None
      end
  | Finalize =>
      if finalizer p then
        match routine p with
        | Some Running => None
        | _ =>
            match stopJanitor p with
            | Some p =>
                Some {| store := store p; routine := routine p;
                        finalizer := false; types := types p |}
            | None => None
            end
        end
      else None
  end.

End Persistence.

Arguments Process Value {G}.
Arguments call Value {G}.
Arguments event Value {G}.
Arguments saved Value {G}.

(** ** A reference codec

    A small instance of [Gob] used to run the persistence code on concrete
    data: values are strings or integers, the registry is the list of
    registered type names, a stream is a sequence of frames, one per entry,
    and a frame that cannot be read is [None]. *)

Inductive scalar :=
| Str (s : string)
| Int (n : Z).

Definition typeName (v : scalar) : string :=
  match v with
  | Str _ => "string"
  | Int _ => "int"
  end.

Definition ref_registered (reg : list string) (o : option scalar) : bool :=
  match o with
  | None => true
  | Some v => bool_decide (typeName v ∈ reg)
  end.

Definition ref_register (reg : list string) (v : scalar)
    : option (list string) :=
  Some (typeName v :: reg).

Definition ref_encode (reg : list string) (m : gmap string (Item scalar))
    : list (option (string * Item scalar)) + string :=
  if forallb (fun kv => ref_registered reg (Object kv.2)) (map_to_list m)
  then inl (Some <$> map_to_list m)
  else inr "gob: type not registered for interface".

Fixpoint ref_decode_from (reg : list string)
    (r : list (option (string * Item scalar)))
    (acc : gmap string (Item scalar)) : gmap string (Item scalar) * error :=
  match r with
  | [] => (acc, None)
  | None :: _ => (acc, Some "unexpected EOF")
  | Some (k, it) :: r =>
      if ref_registered reg (Object it)
      then ref_decode_from reg r (<[k := it]> acc)
      else (acc, Some "gob: name not registered for interface")
  end.

#[export] Instance ref_gob : Gob scalar := {|
  Stream := list (option (string * Item scalar));
  Registry := list string;
  gob_Register := ref_register;
  gob_Encode := ref_encode;
  gob_Decode := fun reg r => ref_decode_from reg r ∅
|}.

(** Concrete data for the examples. *)

Definition item_v (exp : Z) : Item scalar :=
  {| Object := Some (Str "v"); Expiration := exp |}.

Definition table1 (k : string) (it : Item scalar) : Storage scalar :=
  newStorage 0 {[ k := it ]}.

(** A November 2023 instant, in nanoseconds since the epoch. *)
Definition t2023 : Z := 1700000000000000000.

(** The load-merge scenario: a cache holding [a] and [b] (a string and an
    integer) is saved; then [c] is added and [a] overwritten; then the
    saved bytes are loaded back into the running cache. *)

Definition a_saved : Item scalar := {| Object := Some (Str "1"); Expiration := 0 |}.
Definition b_saved : Item scalar := {| Object := Some (Int 2); Expiration := 0 |}.

Definition cache_saved : Storage scalar :=
  Set_ (Set_ (newStorage 0 ∅) "a" (Some (Str "1")) 0 t2023)
       "b" (Some (Int 2)) 0 t2023.

Definition cache_live : Storage scalar :=
  Set_ (Set_ cache_saved "c" (Some (Str "3")) 0 t2023)
       "a" (Some (Str "9")) 0 t2023.

Definition snapshot_saved : gmap string (Item scalar) :=
  <["b" := b_saved]> (<["a" := a_saved]> ∅).

Definition frames_saved : list (option (string * Item scalar)) :=
  [Some ("a", a_saved); Some ("b", b_saved)].

(** The same frames cut short after the first entry. *)
Definition frames_truncated : list (option (string * Item scalar)) :=
  [Some ("a", a_saved); None].

(** A cache holding one entry whose value is the nil interface, as
    [Set("k", nil, NoExpiration)] leaves it. *)
Definition cache_nil : Storage scalar :=
  Set_ (newStorage 0 ∅) "k" None NoExpiration t2023.

(** A process with a running janitor, as [New(0, 10, 0)] leaves it. *)
Definition process10 : Process scalar := New (G := ref_gob) 0 10 0 [].

(** ** Runs of a process *)

Section Runs.

Context {Value : Type} {G : Gob Value}.

(** A sequence of events, each enabled in the state the previous one left;
    [None] as soon as one is not. *)
Fixpoint run (p : Process Value) (es : list (event Value))
    : option (Process Value) :=
  match es with
  | [] => Some p
  | e :: es =>
      match step p e with
      | Some p => run p es
      | None => None
      end
  end.

End Runs.

(** ** The HTTP layer ([api] and [utils])

    The handlers of [api/server.go] over the storage.  A response is the
    status passed to [WriteHeader] and the data handed to the JSON encoder,
    if any; the outcomes of the file-system calls a handler makes are
    arguments, as for [SaveFile] and [LoadFile].  Routing itself belongs to
    gorilla/mux; [request] lists the six routes [configureRouter]
    registers, with their path variables already extracted. *)

Definition StatusOK : Z := 200.
Definition StatusNoContent : Z := 204.
Definition StatusNotFound : Z := 404.
Definition StatusInternalServerError : Z := 500.

(** [type Config struct] and [func NewConfig() *Config] *)
Record Config := mkConfig {
  BindAddr : string;
  DBSize : Z;
  DBFileName : string
}.

Definition NewConfig : Config :=
  {| BindAddr := ":8080"; DBSize := 0; DBFileName := "db.dat" |}.

(** What the file system answers to one handler: whether [os.Stat] found
    the file, what [os.Open] and [os.Create] gave, the error of the write
    to the created file, and the error of [f.Close]. *)
Record files (Stream : Type) := mkFiles {
  stat_ok : bool;
  open_result : Stream + string;
  create_error : error;
  write_error : error;
  close_error : error
}.

Arguments stat_ok {Stream}.
Arguments open_result {Stream}.
Arguments create_error {Stream}.
Arguments write_error {Stream}.
Arguments close_error {Stream}.

Section Api.

Context {Value : Type} {G : Gob Value}.

(** The path variables of mux are strings; [ofString] is the dynamic value
    an [interface{}] holds when a Go string is stored in it. *)
Variable ofString : string -> Value.

(** The data given to [json.NewEncoder(w).Encode]. *)
Inductive payload :=
| ErrorJSON (msg : string)
| ValueJSON (v : option Value)
| ItemsJSON (m : gmap string (Item Value))
| StringJSON (s : string).

Record response := mkResponse {
  status : Z;
  body : option payload
}.

(** [func Respond(w, r, code, data)] *)
Definition Respond (code : Z) (data : option payload) : response :=
  {| status := code; body := data |}.

(** [func ErrorMessage(w, r, code, err)] *)
Definition ErrorMessage (code : Z) (err : string) : response :=
  Respond code (Some (ErrorJSON err)).

(** [type Server struct]; the router is left to mux. *)
Record Server := mkServer {
  storage : Process Value;
  config : Config
}.

Definition with_storage (srv : Server) (p : Process Value) : Server :=
  {| storage := p; config := config srv |}.

(** [func (srv *Server) HandleSet() http.HandlerFunc] *)
Definition HandleSet (srv : Server) (key value : string) (now : Z)
    : Server * response :=
  (with_storage srv
     (with_store (storage srv)
        (Set_ (store (storage srv)) key (Some (ofString value))
              DefaultExpiration now)),
   {| status := StatusOK; body := None |}).

(** [func (srv *Server) HandleGet() http.HandlerFunc] *)
Definition HandleGet (srv : Server) (key : string) (now : Z) : response :=
  let '(val, found) := Get (store (storage srv)) key now in
  if negb found
  then ErrorMessage StatusNotFound "no such key"
  else Respond StatusOK (Some (ValueJSON val)).

(** [func (srv *Server) HandleDelete() http.HandlerFunc] *)
Definition HandleDelete (srv : Server) (key : string) : Server * response :=
  let '(s, deleted) := Delete (store (storage srv)) key in
  let srv := with_storage srv (with_store (storage srv) s) in
  if negb deleted
  then (srv, ErrorMessage StatusNotFound "no such key")
  else (srv, {| status := StatusOK; body := None |}).

(** [func (srv *Server) HandleItems() http.HandlerFunc] *)
Definition HandleItems (srv : Server) (now : Z) : response :=
  Respond StatusOK (Some (ItemsJSON (Items (store (storage srv)) now))).

(** [func (srv *Server) HandleSave() http.HandlerFunc]; no response when
    [SaveFile] panics: the handler is left before it writes one. *)
Definition HandleSave (srv : Server) (now : Z) (os : files Stream)
    : Server * option response :=
  let '(reg, _, ret) :=
    SaveFile (store (storage srv)) now (types (storage srv))
             (create_error os) (write_error os) (close_error os) in
  let srv := with_storage srv (with_types (storage srv) reg) in
  match ret with
  | Panic => (srv, None)
  | Return (Some _) =>
      (srv, Some (ErrorMessage StatusInternalServerError "couldn't save db"))
  | Return None => (srv, Some (Respond StatusOK (Some (StringJSON ""))))
  end.

(** [func (srv *Server) HandleLoad() http.HandlerFunc] *)
Definition HandleLoad (srv : Server) (os : files Stream) : Server * response :=
  if stat_ok os then
    let '(s, err) :=
      LoadFile (store (storage srv)) (open_result os) (close_error os)
               (types (storage srv)) in
    let srv := with_storage srv (with_store (storage srv) s) in
    match err with
    | Some _ => (srv, ErrorMessage StatusInternalServerError "couldn't load db")
    | None => (srv, Respond StatusOK (Some (StringJSON "")))
    end
  else (srv, Respond StatusNoContent (Some (StringJSON ""))).

(** The routes of [configureRouter]. *)
Inductive request :=
| PutItem (key value : string)
| GetItem (key : string)
| GetItems
| DeleteItem (key : string)
| SaveItems
| LoadItems.

(** [func (srv *Server) ServeHTTP(w, r)], through the router: the server
    afterwards and the response, if the handler wrote one. *)
Definition ServeHTTP (srv : Server) (req : request) (now : Z)
    (os : files Stream) : Server * option response :=
  match req with
  | PutItem key value =>
      let '(srv, resp) := HandleSet srv key value now in (srv, Some resp)
  | GetItem key => (srv, Some (HandleGet srv key now))
  | GetItems => (srv, Some (HandleItems srv now))
  | DeleteItem key =>
      let '(srv, resp) := HandleDelete srv key in (srv, Some resp)
  | SaveItems => HandleSave srv now os
  | LoadItems =>
      let '(srv, resp) := HandleLoad srv os in (srv, Some resp)
  end.

(** [func Start(config) error] up to [http.ListenAndServe]: the error it
    returns early, or the server that starts listening.  The storage is
    built with a default expiration of five minutes and a cleanup interval
    of ten.  [configureRouter] and [PersistDB] do not touch the storage
    (the latter only starts a goroutine that saves on SIGINT or SIGTERM). *)
Definition Start (cfg : Config) (os : files Stream) (reg : Registry)
    : string + Server :=
  let db := New (5 * 60000000000) (10 * 60000000000) (DBSize cfg) reg in
  if stat_ok os then
    match LoadFile (store db) (open_result os) (close_error os) (types db) with
    | (_, Some e) => inl e
    | (s, None) => inr {| storage := with_store db s; config := cfg |}
    end
  else inr {| storage := db; config := cfg |}.

(** A sequence of requests served one after the other, each at its own
    instant and with its own file-system answers.  A handler that panics
    ends its request only: net/http recovers and keeps serving. *)
Fixpoint serve_all (srv : Server)
    (reqs : list (request * Z * files Stream)) : Server :=
  match reqs with
  | [] => srv
  | (req, now, os) :: reqs => serve_all (ServeHTTP srv req now os).1 reqs
  end.

End Api.

Arguments payload : clear implicits.
Arguments response : clear implicits.
Arguments Server Value {G}.
Arguments request : clear implicits.

(** Concrete data for the HTTP layer and the janitor. *)
(** A file system without a database file, and the server [Start] builds on
    it from the default configuration. *)
Definition no_file : files (list (option (string * Item scalar))) :=
  {| stat_ok := false;
     open_result := inr "open db.dat: no such file or directory";
     create_error := None;
     write_error := None;
     close_error := None |}.

Definition server0 : Server scalar :=
  {| storage := New (G := ref_gob) (5 * 60000000000) (10 * 60000000000) 0 [];
     config := NewConfig |}.

(** An entry that expired at instant 5, next to one that never expires. *)
Definition cache_stale : Storage scalar :=
  newStorage 0 (<["old" := item_v 5]> {["kept" := item_v 0]}).


(* ================================================================= *)
(** * Properties *)

Section Loops.

Context {Value : Type}.
Implicit Types (m : gmap string (Item Value)) (l : list (string * Item Value)).
Implicit Types (it : Item Value) (k : string) (now : Z).

Lemma stale_true it now :
  stale it now = true <-> 0 < Expiration it /\ Expiration it < now.
Proof. unfold stale. rewrite andb_true_iff, !Z.gtb_ltb, !Z.ltb_lt. tauto. Qed.

Lemma stale_false it now :
  stale it now = false <-> ~ (0 < Expiration it /\ Expiration it < now).
Proof. rewrite <- stale_true. destruct (stale it now); intuition congruence. Qed.

Lemma Expired_true it now :
  Expired it now = true <-> Expiration it <> 0 /\ Expiration it < now.
Proof.
  unfold Expired. destruct (Z.eqb_spec (Expiration it) 0) as [E|E].
  - split; [discriminate | tauto].
  - rewrite Z.gtb_ltb, Z.ltb_lt. tauto.
Qed.

(** On non-negative expiration fields the inlined test is [Expired]. *)
Lemma stale_Expired it now :
  0 <= Expiration it -> stale it now = Expired it now.
Proof.
  intros H. apply eq_true_iff_eq. rewrite stale_true, Expired_true. lia.
Qed.

(** The three loops, read off an enumeration without repeated keys. *)

Lemma Items_loop_lookup now l m k :
  NoDup l.*1 ->
  Items_loop now l m !! k =
    match (list_to_map l : gmap string (Item Value)) !! k with
    | Some it => if stale it now then m !! k else Some it
    | None => m !! k
    end.
Proof.
  revert m. induction l as [|[k0 it0] l IH]; intros m Hnd; [done|].
  apply NoDup_cons in Hnd as [Hk0 Hnd]. cbn [Items_loop foldl fst snd].
  fold (stale it0 now). change (foldl _ ?a l) with (Items_loop now l a).
  rewrite (IH _ Hnd). cbn [list_to_map foldr uncurry fst snd].
  destruct (decide (k0 = k)) as [->|Hne].
  - rewrite lookup_insert_eq.
    rewrite (not_elem_of_list_to_map_1 _ _ Hk0).
    destruct (stale it0 now); [done|]. by rewrite lookup_insert_eq.
  - rewrite (lookup_insert_ne _ _ _ _ Hne).
    destruct (stale it0 now); [done|].
    by rewrite (lookup_insert_ne _ _ _ _ Hne).
Qed.

Lemma DeleteExpired_loop_lookup now l m k :
  NoDup l.*1 ->
  DeleteExpired_loop now l m !! k =
    match (list_to_map l : gmap string (Item Value)) !! k with
    | Some it => if stale it now then None else m !! k
    | None => m !! k
    end.
Proof.
  revert m. induction l as [|[k0 it0] l IH]; intros m Hnd; [done|].
  apply NoDup_cons in Hnd as [Hk0 Hnd]. cbn [DeleteExpired_loop foldl fst snd].
  fold (stale it0 now). change (foldl _ ?a l) with (DeleteExpired_loop now l a).
  rewrite (IH _ Hnd). cbn [list_to_map foldr uncurry fst snd].
  destruct (decide (k0 = k)) as [->|Hne].
  - rewrite lookup_insert_eq.
    rewrite (not_elem_of_list_to_map_1 _ _ Hk0).
    destruct (stale it0 now); [|done]. by rewrite lookup_delete_eq.
  - rewrite (lookup_insert_ne _ _ _ _ Hne).
    destruct (stale it0 now); [|done].
    by rewrite (lookup_delete_ne _ _ _ Hne).
Qed.

Lemma Load_loop_lookup l m k :
  Load_loop l m !! k =
    match (list_to_map (reverse l) : gmap string (Item Value)) !! k with
    | Some it => Some it
    | None => m !! k
    end.
Proof.
  revert m. induction l as [|[k0 it0] l IH]; intros m; [done|].
  cbn [Load_loop foldl fst snd]. change (foldl _ ?a l) with (Load_loop l a).
  rewrite IH, reverse_cons, list_to_map_app. cbn [list_to_map foldr uncurry].
  rewrite lookup_union.
  destruct (list_to_map (reverse l) !! k) as [it|] eqn:E; cbn.
  - by destruct (<[k0:=it0]> ∅ !! k).
  - destruct (decide (k0 = k)) as [->|Hne].
    + by rewrite !lookup_insert_eq.
    + by rewrite !(lookup_insert_ne _ _ _ _ Hne), lookup_empty.
Qed.

End Loops.

Section Operations.

Context {Value : Type}.
Implicit Types (s : Storage Value) (m : gmap string (Item Value)).
Implicit Types (it : Item Value) (k key : string) (now : Z).

Lemma NoDup_fst_perm (l : list (string * Item Value)) m :
  l ≡ₚ map_to_list m -> NoDup l.*1.
Proof. intros Hp. rewrite Hp. apply NoDup_fst_map_to_list. Qed.

Lemma list_to_map_perm (l : list (string * Item Value)) m :
  l ≡ₚ map_to_list m -> list_to_map l = m.
Proof.
  intros Hp. rewrite <- (list_to_map_to_list m).
  apply list_to_map_proper; [by eapply NoDup_fst_perm | done].
Qed.

(** [Items] keeps exactly the entries that fail the inlined test. *)
Lemma Items_lookup s now k :
  Items s now !! k =
    match items s !! k with
    | Some it => if stale it now then None else Some it
    | None => None
    end.
Proof.
  unfold Items. rewrite Items_loop_lookup by apply NoDup_fst_map_to_list.
  rewrite list_to_map_to_list, lookup_empty. by destruct (items s !! k).
Qed.

(** Whatever order Go's [range] picks, [Items] builds the same map. *)
Lemma Items_any_order s now (l : list (string * Item Value)) :
  l ≡ₚ map_to_list (items s) -> Items_loop now l ∅ = Items s now.
Proof.
  intros Hp. apply map_eq; intros k.
  rewrite Items_lookup, Items_loop_lookup by by eapply NoDup_fst_perm.
  rewrite (list_to_map_perm _ _ Hp), lookup_empty. by destruct (items s !! k).
Qed.

Lemma Items_filter s now :
  Items s now = filter (fun kv => stale kv.2 now = false) (items s).
Proof.
  apply map_eq; intros k. rewrite Items_lookup, map_lookup_filter.
  destruct (items s !! k) as [it|]; [|done]. cbn.
  destruct (stale it now) eqn:E.
  - by rewrite option_guard_False by (cbn; congruence).
  - by rewrite option_guard_True.
Qed.

Lemma DeleteExpired_lookup s now k :
  items (DeleteExpired s now) !! k =
    match items s !! k with
    | Some it => if stale it now then None else Some it
    | None => None
    end.
Proof.
  cbn. rewrite DeleteExpired_loop_lookup by apply NoDup_fst_map_to_list.
  rewrite list_to_map_to_list. by destruct (items s !! k) as [it|] eqn:E.
Qed.

Lemma DeleteExpired_any_order s now (l : list (string * Item Value)) :
  l ≡ₚ map_to_list (items s) ->
  DeleteExpired_loop now l (items s) = items (DeleteExpired s now).
Proof.
  intros Hp. apply map_eq; intros k.
  rewrite DeleteExpired_lookup, DeleteExpired_loop_lookup
    by by eapply NoDup_fst_perm.
  rewrite (list_to_map_perm _ _ Hp). by destruct (items s !! k).
Qed.

(** The sweep leaves the table that [Items] would have returned. *)
Lemma DeleteExpired_Items s now : items (DeleteExpired s now) = Items s now.
Proof. apply map_eq; intros k. by rewrite DeleteExpired_lookup, Items_lookup. Qed.

Lemma Get_lookup s key now :
  Get s key now =
    match items s !! key with
    | Some it => if stale it now then (None, false) else (Object it, true)
    | None => (None, false)
    end.
Proof. reflexivity. Qed.

Lemma Set_set s key value duration now :
  Set_ s key value duration now = set s key value duration now.
Proof. reflexivity. Qed.

Lemma Set_lookup s key value duration now :
  items (Set_ s key value duration now) !! key =
    Some {| Object := value;
            Expiration :=
              let d := if duration =? DefaultExpiration
                       then defaultExpiration s else duration in
              if d >? 0 then deadline now d else 0 |}.
Proof. cbn. by rewrite lookup_insert_eq. Qed.

Lemma Set_lookup_ne s key value duration now k :
  key <> k -> items (Set_ s key value duration now) !! k = items s !! k.
Proof. intros Hne. cbn. by rewrite lookup_insert_ne. Qed.

(** (C1, as amended) [Get] reports not-found exactly when the key is absent
    or its entry has a positive expiration field strictly below [now]; an
    entry whose field is zero or negative is found at every instant, and one
    whose field equals [now] is still found.  A miss returns the nil
    interface, a hit the stored value.  On non-negative fields the test is
    the one of [Item.Expired].  Nothing depends on the other entries of the
    table. *)
Theorem Get_found_iff s key now :
  ((Get s key now).2 = false <->
     items s !! key = None \/
     exists it, items s !! key = Some it /\
                0 < Expiration it /\ Expiration it < now) /\
  ((Get s key now).2 = false -> (Get s key now).1 = None) /\
  (forall it, items s !! key = Some it ->
     ~ (0 < Expiration it /\ Expiration it < now) ->
     Get s key now = (Object it, true)) /\
  (forall it, items s !! key = Some it -> 0 <= Expiration it ->
     (Get s key now).2 = negb (Expired it now)).
Proof.
  rewrite Get_lookup. destruct (items s !! key) as [it|] eqn:E.
  - destruct (stale it now) eqn:St; cbn.
    + apply stale_true in St. repeat split; try done.
      * intros _. right. by exists it.
      * intros it' [= <-] H. tauto.
      * intros it' [= <-] H. rewrite <- stale_Expired by done.
        by rewrite (proj2 (stale_true it now) St).
    + apply stale_false in St. repeat split; try done.
      * intros [?|(it' & [= <-] & ?)]; [done | tauto].
      * by intros it' [= <-] _.
      * intros it' [= <-] H. rewrite <- stale_Expired by done.
        by rewrite (proj2 (stale_false it now) St).
  - cbn. repeat split; try done. intros _. by left.
Qed.

(** (C2) [Add] fails exactly when the key is present in the table, live or
    not.  A failed [Add] returns the storage it was given, with the
    already-exists message, so [Get] of that key answers afterwards as it
    did before: the previously stored value as long as the old entry is
    live.  On an absent key [Add] returns no error and the storage that
    [Set] would have produced at the same instant. *)
Theorem Add_spec s key value duration now :
  ((Add s key value duration now).2 <> None <-> is_Some (items s !! key)) /\
  (forall it, items s !! key = Some it ->
     Add s key value duration now = (s, Some (already_exists key)) /\
     items (Add s key value duration now).1 !! key = Some it /\
     (forall now', Get (Add s key value duration now).1 key now'
                   = Get s key now') /\
     (forall now', stale it now' = false ->
        Get (Add s key value duration now).1 key now' = (Object it, true))) /\
  (items s !! key = None ->
     Add s key value duration now = (Set_ s key value duration now, None)).
Proof.
  unfold Add. destruct (items s !! key) as [it|] eqn:E; cbn.
  - split; [|split].
    + split; [by eauto | done].
    + intros it' [= <-]. repeat split; try done.
      intros now' St. by rewrite Get_lookup, E, St.
    + done.
  - split; [|split].
    + split; [done | by intros [? ?]].
    + done.
    + done.
Qed.

End Operations.

Section Snapshots.

Context {Value : Type} {G : Gob Value}.
Implicit Types (s : Storage Value) (m : gmap string (Item Value)).
Implicit Types (it : Item Value) (k key : string) (now : Z).
Implicit Types (p : Process Value) (reg : Registry) (r : Stream).

(** The loop of [Load] is a left-biased union, in any iteration order. *)
Lemma Load_loop_union (l : list (string * Item Value)) decoded m :
  l ≡ₚ map_to_list decoded -> Load_loop l m = decoded ∪ m.
Proof.
  intros Hp. apply map_eq; intros k. rewrite Load_loop_lookup, lookup_union.
  rewrite (list_to_map_perm (reverse l) decoded)
    by (by rewrite reverse_Permutation).
  by destruct (decoded !! k), (m !! k).
Qed.

Lemma Load_ok s r reg decoded :
  gob_Decode reg r = (decoded, None) ->
  Load s r reg = (with_items s (decoded ∪ items s), None).
Proof.
  intros E. unfold Load. rewrite E.
  by rewrite (Load_loop_union _ decoded).
Qed.

(** (C3) When the stream decodes, [Load] returns no error and merges: every
    decoded key maps to its decoded entry afterwards, every other key keeps
    the entry it had (or stays absent), and nothing else of the storage
    changes. *)
Theorem Load_merges s r reg decoded :
  gob_Decode reg r = (decoded, None) ->
  (Load s r reg).2 = None /\
  (forall k it, decoded !! k = Some it ->
     items (Load s r reg).1 !! k = Some it) /\
  (forall k, decoded !! k = None ->
     items (Load s r reg).1 !! k = items s !! k) /\
  defaultExpiration (Load s r reg).1 = defaultExpiration s /\
  janitor_of (Load s r reg).1 = janitor_of s.
Proof.
  intros E. rewrite (Load_ok _ _ _ _ E). cbn. repeat split.
  - intros k it Hk. rewrite lookup_union, Hk. by destruct (items s !! k).
  - intros k Hk. rewrite lookup_union, Hk. by destruct (items s !! k).
Qed.

(** (C9) When decoding fails, [Load] returns the decoder's error and the
    storage it was given, whatever the decoder had already put in its
    map. *)
Theorem Load_error_keeps_table s r reg partial e :
  gob_Decode reg r = (partial, Some e) ->
  Load s r reg = (s, Some e).
Proof. intros E. unfold Load. by rewrite E. Qed.

Lemma Save_loop_nil (l : list (string * Item Value)) reg kv :
  kv ∈ l -> Object kv.2 = None -> (Save_loop l reg).2 = false.
Proof.
  revert reg. induction l as [|kv' l IH]; intros reg Hin Hnil.
  - by apply elem_of_nil in Hin.
  - cbn. apply elem_of_cons in Hin as [<-|Hin].
    + by rewrite Hnil.
    + destruct (Object kv'.2) as [v|]; [|done].
      destruct (gob_Register reg v) as [reg'|]; [|done]. by apply IH.
Qed.

(** (C4) The round trip breaks on a snapshot that holds a nil value.  When
    a live entry of the storage has the nil interface as its value, which
    [Set] stores and [Get] returns like any other, [Save] panics in its
    registration loop, whatever the codec, the registry and the writer: it
    returns no error and hands the writer nothing to decode. *)
Theorem Save_panics_on_nil s now reg wrote k it :
  Items s now !! k = Some it -> Object it = None ->
  Get s k now = (None, true) /\
  (Save s now reg wrote).2 = Panicked /\
  (forall created closed,
     created = None ->
     (SaveFile s now reg created wrote closed).1.2 = None /\
     (SaveFile s now reg created wrote closed).2 = Panic).
Proof.
  intros Hk Hnil.
  assert ((Save_loop (map_to_list (Items s now)) reg).2 = false) as Hloop.
  { apply (Save_loop_nil _ reg (k, it)); [|done].
    by apply elem_of_map_to_list. }
  assert ((Save s now reg wrote).2 = Panicked) as HS.
  { unfold Save.
    by destruct (Save_loop (map_to_list (Items s now)) reg) as [reg' []]. }
  split; [|split].
  - rewrite Items_lookup in Hk. rewrite Get_lookup.
    destruct (items s !! k) as [it'|]; [|done].
    destruct (stale it' now); [done|]. injection Hk as ->. by rewrite Hnil.
  - exact HS.
  - intros created closed ->. unfold SaveFile.
    by destruct (Save s now reg wrote) as [reg' []].
Qed.

(** (C5, as amended) [Items] returns exactly the entries that are not stale
    at the instant of the call, stale meaning a positive expiration field
    strictly below that instant: an entry whose field is zero or negative
    is always included; every included entry is the stored one; on entries
    with a non-negative field the test is the one of [Item.Expired]; the
    call leaves the process as it was. *)
Theorem Items_spec s now :
  (forall k it, Items s now !! k = Some it <->
     items s !! k = Some it /\
     ~ (0 < Expiration it /\ Expiration it < now)) /\
  (forall k it, items s !! k = Some it -> 0 <= Expiration it ->
     Items s now !! k = if Expired it now then None else Some it) /\
  (forall p, exec_call p CItems now = p).
Proof.
  split; [|split].
  - intros k it. rewrite Items_lookup, <- stale_false.
    destruct (items s !! k) as [it'|]; [|by intuition].
    destruct (stale it' now) eqn:E.
    + split; [done|]. intros [[= <-] ?]. congruence.
    + split; [by intros [= <-] | by intros [? _]].
  - intros k it Hk Hpos. by rewrite Items_lookup, Hk, stale_Expired.
  - done.
Qed.

(** (C6, as amended) [DeleteExpired] removes exactly the entries whose
    expiration field is positive and strictly below the instant read at the
    start of the scan; an entry with a zero or negative field is never
    removed; every other entry, and the rest of the storage, is left as it
    was.  On entries with a non-negative field the test is the one of
    [Item.Expired]. *)
Theorem DeleteExpired_spec s now :
  (forall k it, items s !! k = Some it ->
     0 < Expiration it -> Expiration it < now ->
     items (DeleteExpired s now) !! k = None) /\
  (forall k it, items s !! k = Some it ->
     ~ (0 < Expiration it /\ Expiration it < now) ->
     items (DeleteExpired s now) !! k = Some it) /\
  (forall k, items s !! k = None -> items (DeleteExpired s now) !! k = None) /\
  (forall k it, items s !! k = Some it -> 0 <= Expiration it ->
     items (DeleteExpired s now) !! k
       = if Expired it now then None else Some it) /\
  defaultExpiration (DeleteExpired s now) = defaultExpiration s /\
  janitor_of (DeleteExpired s now) = janitor_of s.
Proof.
  repeat split.
  - intros k it Hk H1 H2. rewrite DeleteExpired_lookup, Hk.
    by rewrite (proj2 (stale_true it now)).
  - intros k it Hk H. rewrite DeleteExpired_lookup, Hk.
    by rewrite (proj2 (stale_false it now)).
  - intros k Hk. by rewrite DeleteExpired_lookup, Hk.
  - intros k it Hk Hpos. by rewrite DeleteExpired_lookup, Hk, stale_Expired.
Qed.

End Snapshots.

Section Counting.

Context {Value : Type} {G : Gob Value}.
Implicit Types (s : Storage Value) (m : gmap string (Item Value)).
Implicit Types (it : Item Value) (k key : string) (now : Z).
Implicit Types (p : Process Value) (reg : Registry) (r : Stream).

(** The stale entries of a table at an instant. *)
Lemma size_split s now :
  size (items s) =
    (size (Items s now)
     + size (filter (fun kv => stale kv.2 now = true) (items s)))%nat.
Proof.
  rewrite Items_filter.
  rewrite <- (map_filter_union_complement
                (fun kv => stale kv.2 now = false) (items s)) at 1.
  rewrite map_size_disj_union by apply map_disjoint_filter_complement.
  f_equal. f_equal. apply map_filter_ext. intros i x _. cbn.
  by destruct (stale x now).
Qed.

Lemma size_insert_le m k it : (size m <= size (<[k := it]> m))%nat.
Proof. rewrite map_size_insert. destruct (m !! k); cbn; lia. Qed.

Lemma size_Load_loop_le (l : list (string * Item Value)) m :
  (size m <= size (Load_loop l m))%nat.
Proof.
  revert m. induction l as [|kv l IH]; intros m; [done|]. cbn.
  etrans; [apply (size_insert_le m kv.1 kv.2) | apply IH].
Qed.

Lemma ItemCount_Set s key value duration now :
  ItemCount s <= ItemCount (Set_ s key value duration now).
Proof. unfold ItemCount. cbn. apply inj_le, size_insert_le. Qed.

Lemma ItemCount_Add s key value duration now :
  ItemCount s <= ItemCount (Add s key value duration now).1.
Proof.
  unfold Add. destruct (items s !! key); cbn [fst]; [lia|].
  apply ItemCount_Set.
Qed.

Lemma ItemCount_Load s r reg : ItemCount s <= ItemCount (Load s r reg).1.
Proof.
  unfold Load. destruct (gob_Decode reg r) as [decoded [e|]]; cbn [fst]; [lia|].
  unfold ItemCount. cbn. apply inj_le, size_Load_loop_le.
Qed.

Lemma ItemCount_LoadFile s opened closed reg :
  ItemCount s <= ItemCount (LoadFile s opened closed reg).1.
Proof.
  unfold LoadFile. destruct opened as [r|e]; cbn [fst]; [|lia].
  pose proof (ItemCount_Load s r reg) as H.
  by destruct (Load s r reg) as [s' [e|]].
Qed.

Lemma ItemCount_Delete s key :
  ItemCount (Delete s key).1 =
    if bool_decide (is_Some (items s !! key))
    then ItemCount s - 1 else ItemCount s.
Proof.
  unfold Delete, ItemCount. destruct (items s !! key) as [it|] eqn:E.
  - rewrite bool_decide_eq_true_2 by eauto. cbn [fst with_items items].
    rewrite map_size_delete, E.
    assert (size (items s) <> 0%nat) as H
        by (apply map_size_ne_0_lookup; eauto).
    lia.
  - by rewrite bool_decide_eq_false_2 by (by intros [? ?]).
Qed.

Lemma ItemCount_DeleteExpired s now :
  ItemCount (DeleteExpired s now) =
    ItemCount s
    - Z.of_nat (size (filter (fun kv => stale kv.2 now = true) (items s))).
Proof.
  unfold ItemCount. rewrite DeleteExpired_Items, (size_split s now). lia.
Qed.

Lemma swept_some s now :
  ItemCount (DeleteExpired s now) < ItemCount s ->
  exists k it, items s !! k = Some it /\ stale it now = true.
Proof.
  rewrite ItemCount_DeleteExpired. intros H.
  assert (size (filter (fun kv => stale kv.2 now = true) (items s)) <> 0%nat)
    as Hne by lia.
  apply map_size_ne_0_lookup in Hne as [k [it Hk]].
  apply map_lookup_filter_Some in Hk as [Hk Hst]. by exists k, it.
Qed.

(** The finalizer set by [newsWithJanitor] is never run: it is pending only
    on a storage whose janitor is running, which keeps the storage
    reachable; and were it run with no goroutine receiving, the send in
    [stopJanitor] would not return. *)
Lemma step_Finalize p : step p Finalize = None.
Proof.
  cbn. destruct (finalizer p); [|done]. unfold stopJanitor.
  destruct (routine p) as [[|]|]; [done| |];
    by destruct (janitor_of (store p)).
Qed.

(** (C7) [ItemCount] is the size of the table: at any instant it is the
    number of entries [Items] would return plus the number of stale entries
    still stored.  It takes no clock reading, so the passing of time alone
    does not change it, and over one event of the process it can only drop
    when an exported [Delete] hits a present key or when [DeleteExpired]
    (called directly or by the janitor's tick) finds a stale entry. *)
Theorem ItemCount_raw p :
  ItemCount (store p) = Z.of_nat (size (items (store p))) /\
  (forall now,
     ItemCount (store p) =
       Z.of_nat (size (Items (store p) now))
       + Z.of_nat (size (filter (fun kv => stale kv.2 now = true)
                           (items (store p))))) /\
  (forall e p',
     step p e = Some p' ->
     ItemCount (store p') < ItemCount (store p) ->
     (exists key now, e = Call (CDelete key) now /\
                      is_Some (items (store p) !! key)) \/
     (exists now, (e = Call CDeleteExpired now \/ e = Tick now) /\
                  exists k it, items (store p) !! k = Some it /\
                               stale it now = true)).
Proof.
  split; [done|]. split.
  { intros now. unfold ItemCount. rewrite (size_split (store p) now). lia. }
  intros e p' Hstep Hlt. destruct e as [c now|now|]; cbn in Hstep.
  - injection Hstep as <-. destruct c; cbn in Hlt.
    + pose proof (ItemCount_Set (store p) key value duration now). lia.
    + pose proof (ItemCount_Add (store p) key value duration now). lia.
    + left. exists key, now. split; [done|].
      rewrite ItemCount_Delete in Hlt. case_bool_decide; [done | lia].
    + lia.
    + lia.
    + lia.
    + right. exists now. split; [by left|]. by apply swept_some.
    + lia.
    + lia.
    + pose proof (ItemCount_Load (store p) r (types p)). lia.
    + pose proof (ItemCount_LoadFile (store p) opened closed (types p)). lia.
  - destruct (routine p) as [[|]|]; try done. injection Hstep as <-.
    right. exists now. split; [by right|]. by apply swept_some.
  - change (step p Finalize = Some p') in Hstep.
    by rewrite step_Finalize in Hstep.
Qed.

Lemma defaultExpiration_exec_call p c now :
  defaultExpiration (store (exec_call p c now)) = defaultExpiration (store p).
Proof.
  destruct c; cbn; try done.
  - unfold Add. by destruct (items (store p) !! key).
  - unfold Delete. by destruct (items (store p) !! key).
  - unfold Load. by destruct (gob_Decode (types p) r) as [? [?|]].
  - unfold LoadFile, Load. destruct opened as [r|e]; [|done].
    by destruct (gob_Decode (types p) r) as [? [?|]].
Qed.

(** (C10) [New] and [newStorage] turn a default expiration of 0 into
    [NoExpiration], and no event of the process changes the default
    afterwards.  On a storage built that way [Set] and [Add] with the
    default duration store an entry with expiration 0, which [Get] finds at
    every instant; and on any storage [Set] stores expiration 0 whenever
    the effective duration (the default one when the argument is 0) is zero
    or negative, not only when it is -1. *)
Theorem default_zero_never_expires m key value now :
  defaultExpiration (newStorage (Value := Value) 0 m) = NoExpiration /\
  (forall ci size reg, defaultExpiration (store (New 0 ci size reg))
                       = NoExpiration) /\
  (forall p e p', step p e = Some p' ->
     defaultExpiration (store p') = defaultExpiration (store p)) /\
  items (Set_ (newStorage 0 m) key value DefaultExpiration now) !! key
    = Some {| Object := value; Expiration := 0 |} /\
  (m !! key = None ->
   Add (newStorage 0 m) key value DefaultExpiration now
     = (Set_ (newStorage 0 m) key value DefaultExpiration now, None)) /\
  (forall now',
     Get (Set_ (newStorage 0 m) key value DefaultExpiration now) key now'
       = (value, true)) /\
  (forall s duration,
     (if duration =? DefaultExpiration then defaultExpiration s else duration)
       <= 0 ->
     items (Set_ s key value duration now) !! key
       = Some {| Object := value; Expiration := 0 |} /\
     forall now', Get (Set_ s key value duration now) key now'
                  = (value, true)).
Proof.
  split; [done|]. split.
  { intros ci size reg. unfold New, newsWithJanitor. by destruct (ci >? 0). }
  split.
  { intros p e p' Hstep. destruct e as [c t|t|]; cbn in Hstep.
    - injection Hstep as <-. apply defaultExpiration_exec_call.
    - destruct (routine p) as [[|]|]; try done. by injection Hstep as <-.
    - change (step p Finalize = Some p') in Hstep.
      by rewrite step_Finalize in Hstep. }
  split; [by rewrite Set_lookup|]. split; [|split].
  - intros Hm. unfold Add. cbn [items newStorage]. by rewrite Hm.
  - intros now'. by rewrite Get_lookup, Set_lookup.
  - intros s duration Hd.
    assert (items (Set_ s key value duration now) !! key
            = Some {| Object := value; Expiration := 0 |}) as Hk.
    { rewrite Set_lookup. cbn zeta.
      destruct (Z.gtb_spec (if duration =? DefaultExpiration
                            then defaultExpiration s else duration) 0);
        [lia | done]. }
    split; [done|]. intros now'. by rewrite Get_lookup, Hk.
Qed.

End Counting.

(* ================================================================= *)
(** * Concrete runs *)

(** A negative expiration field is reachable through the exported API:
    [Set] with a duration near the top of [time.Duration] wraps the
    deadline around. *)
Example Set_wraps_negative :
  items (Set_ (newStorage (Value := scalar) 0 ∅) "k" (Some (Str "v"))
              MaxInt64 t2023) !! "k"
  = Some (item_v (-7523372036854775809)).
Proof. rewrite Set_lookup. reflexivity. Qed.

(** ... and through [Load], which stores whatever the stream decodes to. *)
Example Load_stores_negative :
  items (Load (newStorage 0 ∅) [Some ("k", item_v (-5))] ["string"]).1 !! "k"
  = Some (item_v (-5)).
Proof. vm_compute. reflexivity. Qed.

(** The expiration ordering of the test suite: 7ms and 15ms entries and a
    never-expiring one, read at 0, 10 and 20 ms. *)
Example TTL_ordering :
  let ms := 1000000 in
  let s := set (set (set (newStorage 0 ∅) "k1" (Some (Str "v1")) (7 * ms) t2023)
                    "k2" (Some (Str "v2")) (15 * ms) t2023)
               "k3" (Some (Str "v3")) NoExpiration t2023 in
  (Get s "k1" t2023).2 = true /\
  (Get s "k1" (t2023 + 10 * ms)).2 = false /\
  (Get s "k2" (t2023 + 10 * ms)).2 = true /\
  (Get s "k2" (t2023 + 20 * ms)).2 = false /\
  (Get s "k3" (t2023 + 20 * ms)) = (Some (Str "v3"), true).
Proof. vm_compute. repeat split. Qed.

(** (C1, counterexample) An entry with expiration field -5, read at instant
    10: the field is not the sentinel 0 and 10 > -5, so [Item.Expired]
    holds, yet [Get] finds the entry. *)
Lemma Get_negative_field_found :
  let s := table1 "k" (item_v (-5)) in
  Expired (item_v (-5)) 10 = true /\
  Get s "k" 10 = (Some (Str "v"), true) /\
  ~ ((Get s "k" 10).2 = false <->
     (items s !! "k" = None \/
      exists it, items s !! "k" = Some it /\ Expired it 10 = true)).
Proof.
  intros s.
  assert (items s !! "k" = Some (item_v (-5))) as Hk
    by apply lookup_singleton_eq.
  assert (Get s "k" 10 = (Some (Str "v"), true)) as Hget
    by (by rewrite Get_lookup, Hk).
  split; [done|]. split; [exact Hget|]. intros [_ H].
  rewrite Hget in H. discriminate H. right. by exists (item_v (-5)).
Qed.

(** (C5, counterexample) The same entry is in the snapshot [Items] takes at
    instant 10, although its expiry instant -5 has passed and
    [Item.Expired] holds of it. *)
Lemma Items_negative_field_included :
  let s := table1 "k" (item_v (-5)) in
  Items s 10 !! "k" = Some (item_v (-5)) /\
  ~ (forall k it, Items s 10 !! k = Some it -> Expired it 10 = false).
Proof.
  intros s.
  assert (Items s 10 !! "k" = Some (item_v (-5))) as Hk.
  { rewrite Items_lookup. unfold s, table1. cbn.
    by rewrite lookup_singleton_eq. }
  split; [exact Hk|]. intros H. by discriminate (H _ _ Hk).
Qed.

(** (C6, counterexample) The same entry survives [DeleteExpired] at instant
    10, although its field is not the sentinel, lies strictly before 10,
    and [Item.Expired] holds of it. *)
Lemma DeleteExpired_negative_field_kept :
  let s := table1 "k" (item_v (-5)) in
  items (DeleteExpired s 10) !! "k" = Some (item_v (-5)) /\
  ~ (forall k it, items s !! k = Some it ->
       Expiration it <> 0 -> Expiration it < 10 -> Expired it 10 = true ->
       items (DeleteExpired s 10) !! k = None).
Proof.
  intros s.
  assert (items s !! "k" = Some (item_v (-5))) as Hk
    by apply lookup_singleton_eq.
  assert (items (DeleteExpired s 10) !! "k" = Some (item_v (-5))) as Hd
    by (by rewrite DeleteExpired_lookup, Hk).
  split; [exact Hd|]. intros H.
  rewrite (H "k" (item_v (-5)) Hk) in Hd; [discriminate Hd | | |]; by cbn.
Qed.

(** ** Instances

    The theorems above, applied to the concrete data. *)

(** [Get] at the boundary: an entry expiring at 10 is found at 10 and not
    found at 11. *)
Lemma Get_found_iff_witness :
  Get (table1 "k" (item_v 10)) "k" 10 = (Some (Str "v"), true) /\
  (Get (table1 "k" (item_v 10)) "k" 11).2 = false.
Proof.
  assert (items (table1 "k" (item_v 10)) !! "k" = Some (item_v 10)) as Hk
    by apply lookup_singleton_eq.
  split.
  - apply (proj1 (proj2 (proj2 (Get_found_iff (table1 "k" (item_v 10)) "k" 10)))
             (item_v 10) Hk).
    cbn. lia.
  - apply (proj1 (Get_found_iff (table1 "k" (item_v 10)) "k" 11)).
    right. exists (item_v 10). split; [exact Hk | cbn; lia].
Defined.

(** A second [Add] of [a] fails and leaves the cache as it was. *)
Lemma Add_spec_witness :
  items cache_saved !! "a" = Some a_saved /\
  Add cache_saved "a" (Some (Str "other")) 0 t2023
    = (cache_saved, Some "item a already exists").
Proof.
  assert (items cache_saved !! "a" = Some a_saved) as Hk
    by (vm_compute; reflexivity).
  split; [exact Hk|].
  exact (proj1 (proj1 (proj2 (Add_spec cache_saved "a" (Some (Str "other"))
                                0 t2023)) a_saved Hk)).
Defined.

(** [Items] at the boundary: the entry expiring at 10 is in the snapshot
    taken at 10. *)
Lemma Items_spec_witness :
  items (table1 "k" (item_v 10)) !! "k" = Some (item_v 10) /\
  Items (table1 "k" (item_v 10)) 10 !! "k" = Some (item_v 10).
Proof.
  assert (items (table1 "k" (item_v 10)) !! "k" = Some (item_v 10)) as Hk
    by apply lookup_singleton_eq.
  split; [exact Hk|].
  apply (proj1 (Items_spec (table1 "k" (item_v 10)) 10) "k" (item_v 10)).
  split; [exact Hk | cbn; lia].
Defined.

(** [DeleteExpired] at instant 10 removes the entry that expired at 5. *)
Lemma DeleteExpired_spec_witness :
  items (table1 "k" (item_v 5)) !! "k" = Some (item_v 5) /\
  items (DeleteExpired (table1 "k" (item_v 5)) 10) !! "k" = None.
Proof.
  assert (items (table1 "k" (item_v 5)) !! "k" = Some (item_v 5)) as Hk
    by apply lookup_singleton_eq.
  split; [exact Hk|].
  apply (proj1 (DeleteExpired_spec (table1 "k" (item_v 5)) 10) "k" (item_v 5) Hk);
    cbn; lia.
Defined.

(** [Set] with duration -7 on a storage whose default is five minutes
    stores the sentinel. *)
Lemma default_zero_never_expires_witness :
  items (Set_ (newStorage 300000000000 ∅) "k" (Some (Str "v")) (-7) t2023)
    !! "k" = Some (item_v 0).
Proof.
  apply (proj2 (proj2 (proj2 (proj2 (proj2 (proj2
           (default_zero_never_expires (G := ref_gob) ∅ "k" (Some (Str "v"))
              t2023))))))
           (newStorage 300000000000 ∅) (-7)).
  cbn. lia.
Defined.

(** The saved frames decode, and [Load] merges them into the running
    cache. *)
Lemma Load_merges_witness :
  gob_Decode ["int"; "string"] frames_saved = (snapshot_saved, None) /\
  (Load cache_live frames_saved ["int"; "string"]).2 = None /\
  items (Load cache_live frames_saved ["int"; "string"]).1 !! "a"
    = Some a_saved /\
  items (Load cache_live frames_saved ["int"; "string"]).1 !! "c"
    = items cache_live !! "c".
Proof.
  assert (gob_Decode ["int"; "string"] frames_saved = (snapshot_saved, None))
    as Hdec by (vm_compute; reflexivity).
  split; [exact Hdec|].
  destruct (Load_merges (G := ref_gob) cache_live frames_saved ["int"; "string"]
              snapshot_saved Hdec) as (Herr & Hin & Hout & _).
  split; [exact Herr|]. split.
  - apply Hin. vm_compute. reflexivity.
  - apply Hout. vm_compute. reflexivity.
Defined.

(** The truncated frames fail to decode after one entry; [Load] returns the
    error and the running cache. *)
Lemma Load_error_keeps_table_witness :
  gob_Decode ["string"] frames_truncated
    = ({["a" := a_saved]}, Some "unexpected EOF") /\
  Load cache_live frames_truncated ["string"]
    = (cache_live, Some "unexpected EOF").
Proof.
  assert (gob_Decode ["string"] frames_truncated
          = ({["a" := a_saved]}, Some "unexpected EOF")) as Hdec
    by (vm_compute; reflexivity).
  split; [exact Hdec|].
  exact (Load_error_keeps_table (G := ref_gob) cache_live frames_truncated ["string"]
           {["a" := a_saved]} "unexpected EOF" Hdec).
Defined.

(** [Set("k", nil, NoExpiration)] and then [Save]: the entry is live and
    found, and [Save] panics. *)
Lemma Save_panics_on_nil_witness :
  Items cache_nil t2023 !! "k"
    = Some {| Object := None; Expiration := 0 |} /\
  Get cache_nil "k" t2023 = (None, true) /\
  (Save cache_nil t2023 [] None).2 = Panicked.
Proof.
  assert (Items cache_nil t2023 !! "k"
          = Some {| Object := None; Expiration := 0 |}) as Hk
    by (vm_compute; reflexivity).
  split; [exact Hk|].
  destruct (Save_panics_on_nil (G := ref_gob) cache_nil t2023 [] None "k"
              {| Object := None; Expiration := 0 |} Hk eq_refl)
    as (Hget & Hsave & _).
  split; [exact Hget | exact Hsave].
Defined.

(** The snapshot of the scenario holds a string and an integer, and the
    whole scenario runs as the specification describes it. *)
Example load_merge_scenario :
  Items cache_saved t2023 = snapshot_saved /\
  (exists bytes reg,
     Save cache_saved t2023 [] None = (reg, Wrote bytes) /\
     let s := (Load cache_live bytes reg).1 in
     Get s "a" t2023 = (Some (Str "1"), true) /\
     Get s "b" t2023 = (Some (Int 2), true) /\
     Get s "c" t2023 = (Some (Str "3"), true) /\
     ItemCount s = 3).
Proof.
  split; [vm_compute; reflexivity|].
  eexists _, _. split; [vm_compute; reflexivity|].
  vm_compute. repeat split.
Qed.

(** Deleting [a] from the saved cache lowers the count from 2 to 1. *)
Lemma ItemCount_raw_witness :
  let p := with_store process10 cache_saved in
  let p' := with_store process10 (Delete cache_saved "a").1 in
  step p (Call (CDelete "a") t2023) = Some p' /\
  ItemCount (store p') < ItemCount (store p) /\
  ((exists key now, Call (CDelete "a") t2023 = Call (CDelete key) now /\
                    is_Some (items (store p) !! key)) \/
   (exists now, (Call (CDelete "a") t2023 = Call CDeleteExpired now \/
                 Call (CDelete "a") t2023 = Tick now) /\
                exists k it, items (store p) !! k = Some it /\
                             stale it now = true)).
Proof.
  intros p p'.
  assert (step p (Call (CDelete "a") t2023) = Some p') as Hstep
    by reflexivity.
  assert (ItemCount (store p') < ItemCount (store p)) as Hlt
    by (vm_compute; reflexivity).
  split; [exact Hstep|]. split; [exact Hlt|].
  exact (proj2 (proj2 (ItemCount_raw p)) _ _ Hstep Hlt).
Defined.

(* ================================================================= *)
(** * Further properties of the storage *)

Lemma wrap64_small z : - 2 ^ 63 <= z < 2 ^ 63 -> wrap64 z = z.
Proof. intros H. unfold wrap64. rewrite Z.mod_small; lia. Qed.

Lemma wrap64_above z : 2 ^ 63 <= z < 2 ^ 64 -> wrap64 z = z - 2 ^ 64.
Proof.
  intros H. unfold wrap64.
  replace (z + 2 ^ 63) with ((z - 2 ^ 63) + 1 * 2 ^ 64) by lia.
  rewrite Z.mod_add by lia. rewrite Z.mod_small; lia.
Qed.

Section Storage_laws.

Context {Value : Type}.
Implicit Types (s : Storage Value) (m : gmap string (Item Value)).
Implicit Types (it : Item Value) (k key : string) (now : Z).

Lemma with_items_id s : with_items s (items s) = s.
Proof. by destruct s. Qed.

Lemma stale_later it now now' :
  now <= now' -> stale it now = true -> stale it now' = true.
Proof. rewrite !stale_true. lia. Qed.

Lemma Get_swept s key now now' :
  now <= now' ->
  Get (DeleteExpired s now) key now' = Get s key now'.
Proof.
  intros Hle. rewrite !Get_lookup, DeleteExpired_lookup.
  destruct (items s !! key) as [it|]; [|done].
  destruct (stale it now) eqn:E; [|done].
  by rewrite (stale_later it now now' Hle E).
Qed.

(** [Delete] reports whether the key was in the table (expired or not);
    afterwards the key is absent, so [Get] misses it and a second [Delete]
    reports false; the other keys keep their entries; on an absent key the
    storage is returned as it was. *)
Theorem Delete_spec s key :
  ((Delete s key).2 = true <-> is_Some (items s !! key)) /\
  items (Delete s key).1 !! key = None /\
  (forall now, Get (Delete s key).1 key now = (None, false)) /\
  (Delete (Delete s key).1 key).2 = false /\
  (forall k, k <> key -> items (Delete s key).1 !! k = items s !! k) /\
  (items s !! key = None -> Delete s key = (s, false)).
Proof.
  destruct (items s !! key) as [it|] eqn:E.
  - assert (Delete s key = (with_items s (delete key (items s)), true)) as HD
      by (unfold Delete; by rewrite E).
    assert (items (with_items s (delete key (items s))) !! key = None) as Hk
      by (cbn; apply lookup_delete_eq).
    rewrite HD. cbn [fst snd].
    split; [by split; eauto|]. split; [done|]. split; [|split; [|split]].
    + intros now. by rewrite Get_lookup, Hk.
    + unfold Delete. by rewrite Hk.
    + intros k Hne. cbn. by rewrite lookup_delete_ne.
    + done.
  - assert (Delete s key = (s, false)) as HD
      by (unfold Delete; by rewrite E).
    rewrite HD. cbn [fst snd].
    split; [by split; [|intros [? ?]]|]. split; [done|]. split; [|split; [|split]].
    + intros now. by rewrite Get_lookup, E.
    + by rewrite HD.
    + done.
    + done.
Qed.

Lemma Get_Set_in_range s key value duration now now' :
  let d := if duration =? DefaultExpiration
           then defaultExpiration s else duration in
  0 < d -> 0 <= now -> now + d <= MaxInt64 ->
  Get (Set_ s key value duration now) key now'
    = if now' >? now + d then (None, false) else (value, true).
Proof.
  intros d Hd Hnow Hmax. rewrite Get_lookup, Set_lookup. fold d.
  unfold stale. cbn [Expiration Object].
  destruct (Z.gtb_spec d 0) as [_|]; [|lia].
  unfold deadline. rewrite wrap64_small by (unfold MaxInt64 in Hmax; lia).
  destruct (Z.gtb_spec (now + d) 0) as [_|]; [|lia]. cbn.
  by destruct (now' >? now + d).
Qed.

(** [Set] with a positive effective duration [d] that does not overflow:
    [Get] of the key returns the value at every instant up to and including
    [now + d], and misses it at every later instant. *)
Theorem Set_Get_window s key value duration now now' :
  let d := if duration =? DefaultExpiration
           then defaultExpiration s else duration in
  0 < d -> 0 <= now -> now + d <= MaxInt64 ->
  Get (Set_ s key value duration now) key now'
    = if now' >? now + d then (None, false) else (value, true).
Proof. apply Get_Set_in_range. Qed.

(** [Set] with a positive duration so large that the deadline passes the
    top of [int64]: the stored expiration field is negative and [Get] finds
    the entry at every instant. *)
Theorem Set_overflow_never_expires s key value duration now :
  let d := if duration =? DefaultExpiration
           then defaultExpiration s else duration in
  0 <= now <= MaxInt64 -> d <= MaxInt64 -> MaxInt64 < now + d ->
  (exists it, items (Set_ s key value duration now) !! key = Some it /\
              Object it = value /\ Expiration it = now + d - 2 ^ 64 /\
              Expiration it < 0) /\
  forall now', Get (Set_ s key value duration now) key now' = (value, true).
Proof.
  intros d Hnow Hd Hover. unfold MaxInt64 in *.
  assert (items (Set_ s key value duration now) !! key
          = Some {| Object := value; Expiration := now + d - 2 ^ 64 |}) as Hk.
  { rewrite Set_lookup. fold d. cbn zeta.
    destruct (Z.gtb_spec d 0) as [_|]; [|lia].
    unfold deadline. by rewrite wrap64_above by lia. }
  split.
  - eexists. split; [exact Hk|]. cbn. repeat split. lia.
  - intros now'. rewrite Get_lookup, Hk. unfold stale. cbn [Expiration Object].
    destruct (Z.gtb_spec (now + d - 2 ^ 64) 0); [lia | done].
Qed.

(** [Set] is an upsert: the last write to a key wins, whatever was stored
    or written before; the other keys keep their entries; the raw count
    grows by one when the key was absent and stays when it was present. *)
Theorem Set_upsert s key v1 d1 t1 v2 d2 t2 :
  Set_ (Set_ s key v1 d1 t1) key v2 d2 t2 = Set_ s key v2 d2 t2 /\
  (forall k, k <> key -> items (Set_ s key v1 d1 t1) !! k = items s !! k) /\
  ItemCount (Set_ s key v1 d1 t1)
    = if bool_decide (is_Some (items s !! key))
      then ItemCount s else ItemCount s + 1.
Proof.
  split; [|split].
  - unfold Set_, with_items. cbn. by rewrite insert_insert_eq.
  - intros k Hne. by apply Set_lookup_ne.
  - unfold ItemCount. cbn. rewrite map_size_insert.
    destruct (items s !! key) as [it|] eqn:E.
    + by rewrite bool_decide_eq_true_2 by eauto.
    + rewrite bool_decide_eq_false_2 by (by intros [? ?]). cbn. lia.
Qed.

(** Without a write, an entry never comes back: once [Get] misses a key it
    misses it at every later instant, and a key found at some instant was
    found at every earlier one, with the same value. *)
Theorem Get_monotone s key now now' :
  now <= now' ->
  ((Get s key now).2 = false -> Get s key now' = (None, false)) /\
  ((Get s key now').2 = true -> Get s key now = Get s key now').
Proof.
  intros Hle. rewrite !Get_lookup.
  destruct (items s !! key) as [it|]; [|done].
  destruct (stale it now) eqn:E.
  - by rewrite (stale_later it now now' Hle E).
  - split; [done|]. by destruct (stale it now').
Qed.

(** The sweep is invisible to reads: at the instant of [DeleteExpired] and
    at every later one, [Get] answers on the swept storage as on the
    original. *)
Theorem DeleteExpired_Get s key now now' :
  now <= now' ->
  Get (DeleteExpired s now) key now' = Get s key now'.
Proof. apply Get_swept. Qed.

(** A sweep at an instant not later than a previous one removes nothing:
    in particular [DeleteExpired] is idempotent at a given instant. *)
Theorem DeleteExpired_again s now now' :
  now' <= now ->
  DeleteExpired (DeleteExpired s now) now' = DeleteExpired s now.
Proof.
  intros Hle.
  assert (items (DeleteExpired (DeleteExpired s now) now')
          = items (DeleteExpired s now)) as Hm.
  { apply map_eq; intros k. rewrite (DeleteExpired_lookup _ now').
    destruct (items (DeleteExpired s now) !! k) as [it|] eqn:E; [|done].
    rewrite DeleteExpired_lookup in E.
    destruct (items s !! k) as [it'|]; [|done].
    destruct (stale it' now) eqn:St; [done|]. injection E as ->.
    destruct (stale it now') eqn:St'; [|done].
    by rewrite (stale_later it now' now Hle St') in St. }
  change (DeleteExpired (DeleteExpired s now) now')
    with (with_items (DeleteExpired s now)
            (items (DeleteExpired (DeleteExpired s now) now'))).
  rewrite Hm. apply with_items_id.
Qed.

(** The snapshot and the reads agree: at one instant, a key is in [Items]
    exactly when [Get] finds it, and [Get] returns the value of the
    snapshot's entry. *)
Theorem Items_Get s key now :
  ((Get s key now).2 = true <-> is_Some (Items s now !! key)) /\
  (forall it, Items s now !! key = Some it ->
     Get s key now = (Object it, true)).
Proof.
  rewrite Get_lookup, Items_lookup.
  destruct (items s !! key) as [it|].
  - destruct (stale it now); cbn.
    + split; [by split; [|intros [? ?]] | done].
    + split; [by split; eauto | by intros it' [= <-]].
  - split; [by split; [|intros [? ?]] | done].
Qed.

(** The snapshot never has more entries than [ItemCount] reports, and
    right after a sweep at the same instant the two coincide. *)
Theorem Items_size s now :
  Z.of_nat (size (Items s now)) <= ItemCount s /\
  ItemCount (DeleteExpired s now) = Z.of_nat (size (Items s now)) /\
  Items (DeleteExpired s now) now = Items s now.
Proof.
  split; [|split].
  - unfold ItemCount. rewrite Items_filter. apply inj_le, map_size_filter.
  - unfold ItemCount. by rewrite DeleteExpired_Items.
  - apply map_eq; intros k. rewrite !Items_lookup, DeleteExpired_lookup.
    destruct (items s !! k) as [it|]; [|done].
    by destruct (stale it now) eqn:E; [|rewrite E].
Qed.

(** After an [Add] that succeeded, the key holds the added value and every
    further [Add] of that key fails, whatever its value, duration or
    instant, leaving the storage untouched. *)
Theorem Add_twice s key v d now v' d' now' :
  (Add s key v d now).2 = None ->
  (exists it, items (Add s key v d now).1 !! key = Some it /\ Object it = v) /\
  Add (Add s key v d now).1 key v' d' now'
    = ((Add s key v d now).1, Some (already_exists key)).
Proof.
  unfold Add at 1 2 4 5. destruct (items s !! key) as [it|] eqn:E; [done|].
  intros _. cbn [fst].
  assert (items (set s key v d now) !! key
          = Some {| Object := v;
                    Expiration :=
                      let d0 := if d =? DefaultExpiration
                                then defaultExpiration s else d in
                      if d0 >? 0 then deadline now d0 else 0 |}) as Hk
    by apply Set_lookup.
  split; [by eexists|]. unfold Add. by rewrite Hk.
Qed.

(** An expired entry blocks [Add] until it is physically removed: [Add]
    fails while the stale entry is in the table, and succeeds once
    [DeleteExpired] has swept it or [Delete] has removed it. *)
Theorem Add_after_removal s key it v d now :
  items s !! key = Some it ->
  0 < Expiration it -> Expiration it < now ->
  (Add s key v d now).2 = Some (already_exists key) /\
  (Add (DeleteExpired s now) key v d now).2 = None /\
  (Add (Delete s key).1 key v d now).2 = None.
Proof.
  intros Hk H0 H1. split; [|split].
  - unfold Add. by rewrite Hk.
  - unfold Add. rewrite DeleteExpired_lookup, Hk.
    by rewrite (proj2 (stale_true it now)).
  - unfold Add, Delete. rewrite Hk. cbn. by rewrite lookup_delete_eq.
Qed.

End Storage_laws.

(* ================================================================= *)
(** * Further properties of persistence and of the janitor *)

Section Persistence_laws.

Context {Value : Type} {G : Gob Value}.
Implicit Types (s : Storage Value) (m : gmap string (Item Value)).
Implicit Types (it : Item Value) (k key : string) (now : Z).
Implicit Types (p : Process Value) (reg : Registry) (r : Stream).
Implicit Types (es : list (event Value)).

Lemma Load_fail s r reg partial e :
  gob_Decode reg r = (partial, Some e) -> Load s r reg = (s, Some e).
Proof. intros E. unfold Load. by rewrite E. Qed.

(** Loading a file again, while it still holds the same contents, leaves
    the table as the first load left it: the merge of [LoadFile] is
    idempotent, and a file that cannot be opened or decoded leaves the
    table untouched both times. *)
Theorem LoadFile_again s opened closed closed' reg :
  (LoadFile (LoadFile s opened closed reg).1 opened closed' reg).1
    = (LoadFile s opened closed reg).1 /\
  (forall r decoded, opened = inl r ->
     gob_Decode reg r = (decoded, None) ->
     LoadFile (LoadFile s opened closed reg).1 opened closed' reg
       = (with_items s (decoded ∪ items s), closed')).
Proof.
  destruct opened as [r|e]; [|done].
  destruct (gob_Decode reg r) as [decoded [e|]] eqn:E.
  - assert (forall s0 c, LoadFile s0 (inl r) c reg = (s0, Some e)) as H
      by (intros s0 c; unfold LoadFile; by rewrite (Load_fail _ _ _ _ _ E)).
    rewrite !H. split; [done|].
    intros r' decoded' [= <-] E'. congruence.
  - assert (forall s0 c, LoadFile s0 (inl r) c reg
                         = (with_items s0 (decoded ∪ items s0), c)) as H
      by (intros s0 c; unfold LoadFile; by rewrite (Load_ok _ _ _ _ E)).
    rewrite !H. cbn [fst].
    assert (with_items (with_items s (decoded ∪ items s))
              (decoded ∪ items (with_items s (decoded ∪ items s)))
            = with_items s (decoded ∪ items s)) as Hi.
    { unfold with_items. cbn. by rewrite (assoc_L (∪)), (idemp_L (∪)). }
    rewrite Hi. split; [done|].
    intros r' decoded' [= <-] E'. congruence.
Qed.

(** The three ways [LoadFile] ends.  When the file cannot be opened, or its
    contents do not decode, the storage is untouched and that error is
    returned.  When the contents decode, they are merged and the result is
    the error of [Close]: a failing [Close] is reported although the table
    has already been merged. *)
Theorem LoadFile_cases s closed reg :
  (forall e, LoadFile s (inr e) closed reg = (s, Some e)) /\
  (forall r partial e, gob_Decode reg r = (partial, Some e) ->
     LoadFile s (inl r) closed reg = (s, Some e)) /\
  (forall r decoded, gob_Decode reg r = (decoded, None) ->
     LoadFile s (inl r) closed reg
       = (with_items s (decoded ∪ items s), closed)).
Proof.
  split; [done|]. split.
  - intros r partial e E. unfold LoadFile. by rewrite (Load_fail _ _ _ _ _ E).
  - intros r decoded E. unfold LoadFile. by rewrite (Load_ok _ _ _ _ E).
Qed.


(** ** Runs *)

Lemma janitor_of_exec_call p c now :
  janitor_of (store (exec_call p c now)) = janitor_of (store p).
Proof.
  destruct c; cbn; try done.
  - unfold Add. by destruct (items (store p) !! key).
  - unfold Delete. by destruct (items (store p) !! key).
  - unfold Load. by destruct (gob_Decode (types p) r) as [? [?|]].
  - unfold LoadFile, Load. destruct opened as [r|e]; [|done].
    by destruct (gob_Decode (types p) r) as [? [?|]].
Qed.

Lemma routine_exec_call p c now :
  routine (exec_call p c now) = routine p /\
  finalizer (exec_call p c now) = finalizer p.
Proof. by destruct c. Qed.

Lemma step_janitor_of p e p' :
  step p e = Some p' -> janitor_of (store p') = janitor_of (store p).
Proof.
  destruct e as [c now|now|]; cbn.
  - intros [= <-]. apply janitor_of_exec_call.
  - destruct (routine p) as [[|]|]; try done. by intros [= <-].
  - change (step p Finalize = Some p' ->
            janitor_of (store p') = janitor_of (store p)).
    by rewrite step_Finalize.
Qed.



Lemma run_calls_only p es p' :
  (routine p = None \/ routine p = Some Stopped) -> finalizer p = false ->
  run p es = Some p' ->
  Forall (fun e => exists c now, e = Call c now) es /\
  routine p' = routine p /\ finalizer p' = false.
Proof.
  revert p. induction es as [|e es IH]; intros p Hr Hf; cbn.
  - by intros [= <-].
  - destruct (step p e) as [p1|] eqn:E; [|done]. intros Hrun.
    destruct e as [c now|now|]; cbn in E.
    + injection E as <-.
      destruct (routine_exec_call p c now) as [Hr1 Hf1].
      destruct (IH (exec_call p c now)) as (Hall & Hr' & Hf');
        [by rewrite Hr1 | by rewrite Hf1 | done |].
      split; [|by rewrite Hr', Hr1]. constructor; [by eauto | done].
    + by destruct Hr as [Hr|Hr]; rewrite Hr in E.
    + by rewrite Hf in E.
Qed.

(** A cleanup interval of zero or less disables the janitor for good: in
    every run of a cache built that way no tick and no finalizer ever
    fires, only calls happen, and no goroutine exists at the end. *)
Theorem janitor_disabled de ci size reg es p :
  ci <= 0 ->
  run (New de ci size reg) es = Some p ->
  Forall (fun e => exists c now, e = Call c now) es /\
  routine p = None /\ janitor_of (store p) = None.
Proof.
  intros Hci Hrun.
  assert (routine (New de ci size reg) = None /\
          finalizer (New de ci size reg) = false /\
          janitor_of (store (New de ci size reg)) = None) as (Hr & Hf & Hj).
  { unfold New, newsWithJanitor.
    by destruct (Z.gtb_spec ci 0) as [|_]; [lia|]. }
  destruct (run_calls_only _ _ _ (or_introl Hr) Hf Hrun) as (Hall & Hr' & _).
  split; [done|]. split; [by rewrite Hr'|].
  clear Hall Hr' Hr Hf. revert Hrun Hj. generalize (New de ci size reg) as q.
  induction es as [|e es IH]; intros q; cbn.
  - by intros [= <-].
  - destruct (step q e) as [q1|] eqn:E; [|done]. intros Hrun Hj.
    apply (IH q1 Hrun). by rewrite (step_janitor_of _ _ _ E).
Qed.

(** The janitor never changes what a reader sees: after any number of
    ticks, at instants not later than the read, [Get] answers as it would
    have without them. *)
Theorem ticks_invisible (ts : list Z) p p' key now :
  Forall (fun t => t <= now) ts ->
  run p (Tick <$> ts) = Some p' ->
  Get (store p') key now = Get (store p) key now.
Proof.
  revert p. induction ts as [|t ts IH]; intros p Hts; cbn.
  - by intros [= <-].
  - apply Forall_cons in Hts as [Ht Hts].
    destruct (routine p) as [[|]|]; try done. intros Hrun.
    rewrite (IH _ Hts Hrun). cbn. by apply Get_swept.
Qed.

End Persistence_laws.

(* ================================================================= *)
(** * Properties of the HTTP layer *)

Section Api_laws.

Context {Value : Type} {G : Gob Value}.
Variable ofString : string -> Value.
Implicit Types (srv : Server Value) (key value : string) (now : Z).
Implicit Types (os : files Stream) (reg : Registry).

Lemma with_store_id (p : Process Value) : with_store p (store p) = p.
Proof. by destruct p. Qed.

Lemma with_storage_id srv : with_storage srv (storage srv) = srv.
Proof. by destruct srv. Qed.

Lemma HandleGet_found srv key now v :
  Get (store (storage srv)) key now = (v, true) ->
  HandleGet srv key now = Respond StatusOK (Some (ValueJSON v)).
Proof. intros E. unfold HandleGet. by rewrite E. Qed.

Lemma HandleGet_missing srv key now v :
  Get (store (storage srv)) key now = (v, false) ->
  HandleGet srv key now = ErrorMessage StatusNotFound "no such key".
Proof. intros E. unfold HandleGet. by rewrite E. Qed.

Lemma ServeHTTP_keeps srv req now os :
  let srv' := (ServeHTTP ofString srv req now os).1 in
  defaultExpiration (store (storage srv'))
    = defaultExpiration (store (storage srv)) /\
  routine (storage srv') = routine (storage srv) /\
  finalizer (storage srv') = finalizer (storage srv) /\
  janitor_of (store (storage srv')) = janitor_of (store (storage srv)) /\
  config srv' = config srv.
Proof.
  destruct req; cbn; try done.
  - unfold HandleDelete, Delete.
    by destruct (items (store (storage srv)) !! key).
  - unfold HandleSave.
    destruct (SaveFile _ _ _ _ _ _) as [[reg' f] [|[e|]]]; by cbn.
  - unfold HandleLoad. destruct (stat_ok os); [|done].
    unfold LoadFile, Load.
    destruct (open_result os) as [r|e]; [|done].
    destruct (gob_Decode (types (storage srv)) r) as [decoded [e|]]; [done|].
    by destruct (close_error os).
Qed.

Lemma serve_all_keeps srv reqs :
  let srv' := serve_all ofString srv reqs in
  defaultExpiration (store (storage srv'))
    = defaultExpiration (store (storage srv)) /\
  routine (storage srv') = routine (storage srv) /\
  finalizer (storage srv') = finalizer (storage srv) /\
  janitor_of (store (storage srv')) = janitor_of (store (storage srv)) /\
  config srv' = config srv.
Proof.
  revert srv. induction reqs as [|[[req now] os] reqs IH]; intros srv; [done|].
  cbn. destruct (IH (ServeHTTP ofString srv req now os).1)
    as (-> & -> & -> & -> & ->).
  apply ServeHTTP_keeps.
Qed.

Lemma New_started size reg :
  New (5 * 60000000000) (10 * 60000000000) size reg
  = {| store := {| filePath := ""; defaultExpiration := 300000000000;
                   items := (∅ : gmap string (Item Value));
                   janitor_of := Some {| Interval := 600000000000 |} |};
       routine := Some Running; finalizer := true; types := reg |}.
Proof. reflexivity. Qed.

Lemma Start_shape cfg os reg srv :
  Start cfg os reg = inr srv ->
  defaultExpiration (store (storage srv)) = 300000000000 /\
  routine (storage srv) = Some Running /\
  finalizer (storage srv) = true /\
  janitor_of (store (storage srv)) = Some {| Interval := 600000000000 |} /\
  config srv = cfg.
Proof.
  unfold Start. rewrite New_started. destruct (stat_ok os).
  - unfold LoadFile, Load. cbn [store types].
    destruct (open_result os) as [r|e]; [|done].
    destruct (gob_Decode reg r) as [decoded [e|]]; [done|].
    destruct (close_error os); [done|]. by intros [= <-].
  - by intros [= <-].
Qed.

(** What [Start] hands to the listener.  Without a database file the
    server starts on an empty table; with one, its decoded entries are the
    table; and if the file cannot be opened, decoded or closed, [Start]
    returns that error instead of serving.  A started server has a default
    expiration of five minutes and a janitor running every ten. *)
Theorem Start_spec cfg os reg :
  (stat_ok os = false ->
   exists srv, Start cfg os reg = inr srv /\ items (store (storage srv)) = ∅) /\
  (stat_ok os = true ->
   forall e, (LoadFile (newStorage 300000000000 ∅) (open_result os)
                (close_error os) reg).2 = Some e ->
   Start cfg os reg = inl e) /\
  (stat_ok os = true ->
   forall r decoded, open_result os = inl r ->
     gob_Decode reg r = (decoded, None) -> close_error os = None ->
     exists srv, Start cfg os reg = inr srv /\
                 items (store (storage srv)) = decoded) /\
  (forall srv, Start cfg os reg = inr srv ->
     defaultExpiration (store (storage srv)) = 300000000000 /\
     routine (storage srv) = Some Running /\
     janitor_of (store (storage srv)) = Some {| Interval := 600000000000 |} /\
     config srv = cfg).
Proof.
  split; [|split; [|split]].
  - intros Hs. unfold Start. rewrite New_started, Hs. by eexists.
  - intros Hs e. unfold Start. rewrite New_started, Hs.
    unfold LoadFile, Load, newStorage. cbn [store types items Z.eqb].
    destruct (open_result os) as [r|e']; [|by intros [= ->]].
    destruct (gob_Decode reg r) as [decoded [e'|]]; [by intros [= ->]|].
    destruct (close_error os); [by intros [= ->] | done].
  - intros Hs r decoded Ho Hd Hc. unfold Start.
    rewrite New_started, Hs, Ho, Hc.
    unfold LoadFile. cbn [store types]. rewrite (Load_ok _ _ _ _ Hd).
    eexists. split; [done|]. cbn. apply (right_id_L ∅ (∪)).
  - intros srv Hsrv.
    by destruct (Start_shape _ _ _ _ Hsrv) as (? & ? & _ & ? & ?).
Qed.

(** On a server started by [Start], after any requests: a PUT at [now]
    followed by a GET of the same key answers 200 with the stored string at
    every instant up to five minutes after the PUT, and 404 "no such key"
    at every later instant. *)
Theorem Put_then_Get cfg os reg srv0 reqs key value now now' :
  Start cfg os reg = inr srv0 ->
  0 <= now -> now + 300000000000 <= MaxInt64 ->
  let srv := serve_all ofString srv0 reqs in
  HandleGet (HandleSet ofString srv key value now).1 key now'
    = if now' >? now + 300000000000
      then ErrorMessage StatusNotFound "no such key"
      else Respond StatusOK (Some (ValueJSON (Some (ofString value)))).
Proof.
  intros Hstart Hnow Hmax srv.
  assert (defaultExpiration (store (storage srv)) = 300000000000) as Hde.
  { unfold srv. rewrite (proj1 (serve_all_keeps srv0 reqs)).
    apply (Start_shape _ _ _ _ Hstart). }
  pose proof (Get_Set_in_range (store (storage srv)) key
                (Some (ofString value)) DefaultExpiration now now') as HG.
  cbn zeta in HG. rewrite Z.eqb_refl, Hde in HG.
  specialize (HG ltac:(lia) Hnow Hmax).
  destruct (now' >? now + 300000000000).
  - by apply (HandleGet_missing _ _ _ None).
  - by apply HandleGet_found.
Qed.

(** No request stops the janitor, changes the default expiration or the
    configuration: after any sequence of requests a started server still
    sweeps every ten minutes and still stores with five minutes to live. *)
Theorem requests_keep_setup cfg os reg srv0 reqs :
  Start cfg os reg = inr srv0 ->
  let srv := serve_all ofString srv0 reqs in
  defaultExpiration (store (storage srv)) = 300000000000 /\
  routine (storage srv) = Some Running /\
  janitor_of (store (storage srv)) = Some {| Interval := 600000000000 |} /\
  config srv = cfg.
Proof.
  intros Hstart srv.
  destruct (serve_all_keeps srv0 reqs) as (H1 & H2 & _ & H4 & H5).
  destruct (Start_shape _ _ _ _ Hstart) as (? & ? & _ & ? & ?).
  unfold srv. by rewrite H1, H2, H4, H5.
Qed.

(** DELETE answers 200 exactly when the key was in the table, also for an
    entry that has expired and that GET already answers 404 for; after it
    GET answers 404 and a second DELETE answers 404. *)
Theorem HandleDelete_spec srv key now :
  ((HandleDelete srv key).2 = {| status := StatusOK; body := None |} <->
     is_Some (items (store (storage srv)) !! key)) /\
  ((HandleDelete srv key).2 = ErrorMessage StatusNotFound "no such key" <->
     items (store (storage srv)) !! key = None) /\
  HandleGet (HandleDelete srv key).1 key now
    = ErrorMessage StatusNotFound "no such key" /\
  (HandleDelete (HandleDelete srv key).1 key).2
    = ErrorMessage StatusNotFound "no such key" /\
  (forall it, items (store (storage srv)) !! key = Some it ->
     0 < Expiration it -> Expiration it < now ->
     HandleGet srv key now = ErrorMessage StatusNotFound "no such key" /\
     (HandleDelete srv key).2 = {| status := StatusOK; body := None |}).
Proof.
  destruct (items (store (storage srv)) !! key) as [it|] eqn:E.
  - assert (HandleDelete srv key
            = (with_storage srv
                 (with_store (storage srv)
                    (with_items (store (storage srv))
                       (delete key (items (store (storage srv)))))),
               {| status := StatusOK; body := None |})) as HD
      by (unfold HandleDelete, Delete; by rewrite E).
    rewrite HD. cbn [fst snd].
    assert (items (store (storage
              (with_storage srv
                 (with_store (storage srv)
                    (with_items (store (storage srv))
                       (delete key (items (store (storage srv)))))))))
              !! key = None) as Hk by (cbn; apply lookup_delete_eq).
    split; [by split; eauto|]. split; [by split|]. split; [|split].
    + apply (HandleGet_missing _ _ _ None). by rewrite Get_lookup, Hk.
    + unfold HandleDelete, Delete. by rewrite Hk.
    + intros it' [= <-] H0 H1. split; [|done].
      apply (HandleGet_missing _ _ _ None). rewrite Get_lookup, E.
      by rewrite (proj2 (stale_true it now)).
  - assert (HandleDelete srv key
            = (with_storage srv
                 (with_store (storage srv) (store (storage srv))),
               ErrorMessage StatusNotFound "no such key")) as HD
      by (unfold HandleDelete, Delete; by rewrite E).
    rewrite HD, with_store_id, with_storage_id. cbn [fst snd].
    split; [by split; [|intros [? ?]]|]. split; [by split|].
    split; [|split].
    + apply (HandleGet_missing _ _ _ None). by rewrite Get_lookup, E.
    + by rewrite HD.
    + done.
Qed.

(** The listing and the single reads agree: at one instant, the map that
    GET /items/ hands to the encoder holds a key exactly when GET of that
    key answers 200. *)
Theorem HandleItems_HandleGet srv key now :
  exists m, HandleItems srv now = Respond StatusOK (Some (ItemsJSON m)) /\
            (is_Some (m !! key) <->
             status (HandleGet srv key now) = StatusOK).
Proof.
  exists (Items (store (storage srv)) now). split; [done|].
  unfold HandleGet. rewrite Get_lookup, Items_lookup.
  destruct (items (store (storage srv)) !! key) as [it|].
  - destruct (stale it now); cbn.
    + by split; [intros [? ?]|].
    + by split; eauto.
  - cbn. by split; [intros [? ?]|].
Qed.

(** GET /loadItems.  Without a file the answer is 204 and the server is
    untouched.  With a file that cannot be opened or decoded the answer is
    500 and the table is untouched.  With a file that decodes the table is
    merged, and the answer is 200, or 500 when closing the file failed:
    then the merge has happened all the same. *)
Theorem HandleLoad_spec srv os :
  (stat_ok os = false ->
   HandleLoad srv os = (srv, Respond StatusNoContent (Some (StringJSON "")))) /\
  (stat_ok os = true ->
   forall e, open_result os = inr e ->
   HandleLoad srv os
     = (srv, ErrorMessage StatusInternalServerError "couldn't load db")) /\
  (stat_ok os = true ->
   forall r partial e, open_result os = inl r ->
     gob_Decode (types (storage srv)) r = (partial, Some e) ->
   HandleLoad srv os
     = (srv, ErrorMessage StatusInternalServerError "couldn't load db")) /\
  (stat_ok os = true ->
   forall r decoded, open_result os = inl r ->
     gob_Decode (types (storage srv)) r = (decoded, None) ->
   items (store (storage (HandleLoad srv os).1))
     = decoded ∪ items (store (storage srv)) /\
   (HandleLoad srv os).2
     = match close_error os with
       | None => Respond StatusOK (Some (StringJSON ""))
       | Some _ =>
           ErrorMessage StatusInternalServerError "couldn't load db"
       end).
Proof.
  split; [|split; [|split]].
  - intros Hs. unfold HandleLoad. by rewrite Hs.
  - intros Hs e Ho. unfold HandleLoad, LoadFile. rewrite Hs, Ho.
    by rewrite with_store_id, with_storage_id.
  - intros Hs r partial e Ho Hd. unfold HandleLoad, LoadFile.
    rewrite Hs, Ho, (Load_fail _ _ _ _ _ Hd).
    by rewrite with_store_id, with_storage_id.
  - intros Hs r decoded Ho Hd. unfold HandleLoad, LoadFile.
    rewrite Hs, Ho, (Load_ok _ _ _ _ Hd).
    by destruct (close_error os).
Qed.

(** GET /saveItems never changes the table.  It answers 500 "couldn't save
    db" when the file cannot be created; it writes no response when the
    snapshot holds a nil value, because [Save] panics; and when the
    registration loop runs to its end it answers 200 exactly when the
    encoder, the write to the file and [Close] all succeed, and 500
    otherwise. *)
Theorem HandleSave_spec srv now os :
  store (storage (HandleSave srv now os).1) = store (storage srv) /\
  (forall e, create_error os = Some e ->
     (HandleSave srv now os).2
       = Some (ErrorMessage StatusInternalServerError "couldn't save db")) /\
  (forall k it, create_error os = None ->
     Items (store (storage srv)) now !! k = Some it -> Object it = None ->
     (HandleSave srv now os).2 = None) /\
  (forall reg', create_error os = None ->
     Save_loop (map_to_list (Items (store (storage srv)) now))
       (types (storage srv)) = (reg', true) ->
     ((HandleSave srv now os).2
        = Some (Respond StatusOK (Some (StringJSON ""))) <->
      (exists bytes,
         gob_Encode reg' (Items (store (storage srv)) now) = inl bytes) /\
      write_error os = None /\ close_error os = None) /\
     ((HandleSave srv now os).2
        = Some (ErrorMessage StatusInternalServerError "couldn't save db") <->
      ~ ((exists bytes,
            gob_Encode reg' (Items (store (storage srv)) now) = inl bytes) /\
         write_error os = None /\ close_error os = None))).
Proof.
  split; [|split; [|split]].
  - unfold HandleSave.
    destruct (SaveFile _ _ _ _ _ _) as [[reg' f] [|[e|]]]; by cbn.
  - intros e He. unfold HandleSave, SaveFile. by rewrite He.
  - intros k it Hc Hk Hnil. unfold HandleSave, SaveFile, Save. rewrite Hc.
    pose proof (Save_loop_nil (map_to_list (Items (store (storage srv)) now))
                  (types (storage srv)) (k, it)
                  ltac:(by apply elem_of_map_to_list) Hnil) as Hloop.
    destruct (Save_loop _ _) as [reg' b]. cbn in Hloop. by rewrite Hloop.
  - intros reg' Hc Hloop. unfold HandleSave, SaveFile, Save.
    rewrite Hc, Hloop.
    destruct (gob_Encode reg' (Items (store (storage srv)) now))
      as [bytes|e]; cbn.
    + destruct (write_error os) as [e|]; cbn.
      * split; split; try done.
        -- by intros (_ & ? & _).
        -- by intros _ (_ & ? & _).
      * destruct (close_error os) as [e|]; cbn.
        -- split; split; try done.
           ++ by intros (_ & _ & ?).
           ++ by intros _ (_ & _ & ?).
        -- split; split; try done.
           ++ by eauto.
           ++ intros H. exfalso. apply H. by eauto.
    + split; split; try done.
      * by intros ([? ?] & _).
      * by intros _ ([? ?] & _).
Qed.

End Api_laws.

(* ================================================================= *)
(** * Instances of the further properties *)

(** A value set for one second at [t2023] is found one second later and
    missed one nanosecond after that. *)
Lemma Set_Get_window_witness :
  0 < 1000000000 /\ 0 <= t2023 /\ t2023 + 1000000000 <= MaxInt64 /\
  Get (Set_ cache_saved "k" (Some (Str "v")) 1000000000 t2023) "k"
      (t2023 + 1000000000) = (Some (Str "v"), true) /\
  Get (Set_ cache_saved "k" (Some (Str "v")) 1000000000 t2023) "k"
      (t2023 + 1000000001) = (None, false).
Proof.
  assert (0 < 1000000000) as H1 by lia.
  assert (0 <= t2023) as H2 by (by vm_compute).
  assert (t2023 + 1000000000 <= MaxInt64) as H3 by (by vm_compute).
  split; [exact H1|]. split; [exact H2|]. split; [exact H3|]. split.
  - exact (Set_Get_window cache_saved "k" (Some (Str "v")) 1000000000 t2023
             (t2023 + 1000000000) H1 H2 H3).
  - exact (Set_Get_window cache_saved "k" (Some (Str "v")) 1000000000 t2023
             (t2023 + 1000000001) H1 H2 H3).
Defined.

(** A duration of [MaxInt64] at [t2023] overflows; the entry is found a
    thousand years later. *)
Lemma Set_overflow_never_expires_witness :
  0 <= t2023 <= MaxInt64 /\ MaxInt64 <= MaxInt64 /\
  MaxInt64 < t2023 + MaxInt64 /\
  Get (Set_ cache_saved "k" (Some (Str "v")) MaxInt64 t2023) "k"
      (t2023 + 31536000000000000000) = (Some (Str "v"), true).
Proof.
  assert (0 <= t2023 <= MaxInt64) as H1 by (by vm_compute).
  assert (MaxInt64 <= MaxInt64) as H2 by lia.
  assert (MaxInt64 < t2023 + MaxInt64) as H3 by (by vm_compute).
  split; [exact H1|]. split; [exact H2|]. split; [exact H3|].
  exact (proj2 (Set_overflow_never_expires cache_saved "k" (Some (Str "v"))
                  MaxInt64 t2023 H1 H2 H3) _).
Defined.

(** The entry that expired at 5 is missed at 6, hence at 10. *)
Lemma Get_monotone_witness :
  6 <= 10 /\ (Get cache_stale "old" 6).2 = false /\
  Get cache_stale "old" 10 = (None, false).
Proof.
  assert (6 <= 10) as H1 by lia.
  assert ((Get cache_stale "old" 6).2 = false) as H2
    by (vm_compute; reflexivity).
  split; [exact H1|]. split; [exact H2|].
  exact (proj1 (Get_monotone cache_stale "old" 6 10 H1) H2).
Defined.

Lemma DeleteExpired_Get_witness :
  6 <= 10 /\
  Get (DeleteExpired cache_stale 6) "kept" 10 = Get cache_stale "kept" 10.
Proof.
  assert (6 <= 10) as H1 by lia.
  split; [exact H1|].
  exact (DeleteExpired_Get cache_stale "kept" 6 10 H1).
Defined.

Lemma DeleteExpired_again_witness :
  6 <= 10 /\
  DeleteExpired (DeleteExpired cache_stale 10) 6 = DeleteExpired cache_stale 10.
Proof.
  assert (6 <= 10) as H1 by lia.
  split; [exact H1|].
  exact (DeleteExpired_again cache_stale 10 6 H1).
Defined.

(** The test of the package: a first [Add] succeeds, a second fails. *)
Lemma Add_twice_witness :
  (Add (newStorage 0 ∅) "test_k" (Some (Str "test_v")) 0 t2023).2 = None /\
  Add (Add (newStorage 0 ∅) "test_k" (Some (Str "test_v")) 0 t2023).1
      "test_k" (Some (Str "other_test_v")) 0 t2023
  = ((Add (newStorage 0 ∅) "test_k" (Some (Str "test_v")) 0 t2023).1,
     Some "item test_k already exists").
Proof.
  assert ((Add (newStorage 0 ∅) "test_k" (Some (Str "test_v")) 0 t2023).2
          = None) as H1 by reflexivity.
  split; [exact H1|].
  exact (proj2 (Add_twice (newStorage 0 ∅) "test_k" (Some (Str "test_v")) 0
                  t2023 (Some (Str "other_test_v")) 0 t2023 H1)).
Defined.

Lemma Add_after_removal_witness :
  items cache_stale !! "old" = Some (item_v 5) /\
  (Add cache_stale "old" (Some (Int 1)) 0 10).2
    = Some "item old already exists" /\
  (Add (DeleteExpired cache_stale 10) "old" (Some (Int 1)) 0 10).2 = None.
Proof.
  assert (items cache_stale !! "old" = Some (item_v 5)) as H1
    by (vm_compute; reflexivity).
  split; [exact H1|].
  destruct (Add_after_removal cache_stale "old" (item_v 5) (Some (Int 1)) 0 10
              H1 ltac:(cbn; lia) ltac:(cbn; lia)) as (Ha & Hb & _).
  split; [exact Ha | exact Hb].
Defined.



(** [New(0, 0, 0)], as the tests build it, has no janitor. *)
Lemma janitor_disabled_witness :
  let p := exec_call (New (G := ref_gob) 0 0 0 [])
             (CSet "k" (Some (Str "v")) 0) t2023 in
  0 <= 0 /\
  run (New (G := ref_gob) 0 0 0 []) [Call (CSet "k" (Some (Str "v")) 0) t2023]
    = Some p /\
  routine p = None /\ janitor_of (store p) = None.
Proof.
  intros p.
  assert (run (New (G := ref_gob) 0 0 0 [])
            [Call (CSet "k" (Some (Str "v")) 0) t2023] = Some p) as Hrun
    by reflexivity.
  split; [lia|]. split; [exact Hrun|].
  exact (proj2 (janitor_disabled (G := ref_gob) 0 0 0 [] _ p
                  ltac:(lia) Hrun)).
Defined.

Lemma ticks_invisible_witness :
  let p := with_store process10 cache_stale in
  let p' := with_store process10
              (DeleteExpired (DeleteExpired cache_stale 6) 8) in
  Forall (fun t => t <= 10) [6; 8] /\
  run p (Tick <$> [6; 8]) = Some p' /\
  Get (store p') "kept" 10 = Get cache_stale "kept" 10.
Proof.
  intros p p'.
  assert (Forall (fun t => t <= 10) [6; 8]) as H1
    by (repeat constructor; lia).
  assert (run p (Tick <$> [6; 8]) = Some p') as H2 by reflexivity.
  split; [exact H1|]. split; [exact H2|].
  exact (ticks_invisible (G := ref_gob) [6; 8] p p' "kept" 10 H1 H2).
Defined.

(** PUT then GET on the server of the default configuration. *)
Lemma Put_then_Get_witness :
  Start NewConfig no_file [] = inr server0 /\
  0 <= t2023 /\ t2023 + 300000000000 <= MaxInt64 /\
  HandleGet (HandleSet Str server0 "k" "v" t2023).1 "k" (t2023 + 1)
    = Respond StatusOK (Some (ValueJSON (Some (Str "v")))) /\
  HandleGet (HandleSet Str server0 "k" "v" t2023).1 "k"
            (t2023 + 300000000001)
    = ErrorMessage StatusNotFound "no such key".
Proof.
  assert (Start NewConfig no_file [] = inr server0) as H0 by reflexivity.
  assert (0 <= t2023) as H1 by (by vm_compute).
  assert (t2023 + 300000000000 <= MaxInt64) as H2 by (by vm_compute).
  split; [exact H0|]. split; [exact H1|]. split; [exact H2|]. split.
  - exact (Put_then_Get (G := ref_gob) Str NewConfig no_file [] server0 []
             "k" "v" t2023 (t2023 + 1) H0 H1 H2).
  - exact (Put_then_Get (G := ref_gob) Str NewConfig no_file [] server0 []
             "k" "v" t2023 (t2023 + 300000000001) H0 H1 H2).
Defined.

Lemma requests_keep_setup_witness :
  Start NewConfig no_file [] = inr server0 /\
  routine (storage (serve_all Str server0
                      [(PutItem "k" "v", t2023, no_file);
                       (DeleteItem "k", t2023, no_file);
                       (LoadItems, t2023, no_file)]))
    = Some Running.
Proof.
  assert (Start NewConfig no_file [] = inr server0) as H0 by reflexivity.
  split; [exact H0|].
  exact (proj1 (proj2 (requests_keep_setup (G := ref_gob) Str NewConfig
                         no_file [] server0 _ H0))).
Defined.

(** GET /saveItems on a disk that refuses the write answers 500. *)
Lemma HandleSave_spec_witness :
  let os := {| stat_ok := false; open_result := inr "no file";
               create_error := None;
               write_error := Some "write db.dat: no space left on device";
               close_error := None |} in
  create_error os = None /\
  Save_loop (map_to_list (Items (store (storage server0)) t2023))
    (types (storage server0)) = ([], true) /\
  (HandleSave server0 t2023 os).2
    = Some (ErrorMessage StatusInternalServerError "couldn't save db").
Proof.
  intros os.
  assert (Save_loop (map_to_list (Items (store (storage server0)) t2023))
            (types (storage server0)) = ([], true)) as H1
    by (vm_compute; reflexivity).
  split; [reflexivity|]. split; [exact H1|].
  apply (proj2 (proj2 (proj2 (proj2 (HandleSave_spec (G := ref_gob) server0
                                       t2023 os))) [] eq_refl H1)).
  by intros (_ & ? & _).
Defined.

(** A [Close] that fails after the merge: the error is returned and the
    saved entries are in the table. *)
Lemma LoadFile_cases_witness :
  gob_Decode ["int"; "string"] frames_saved = (snapshot_saved, None) /\
  LoadFile cache_live (inl frames_saved) (Some "close db.dat: input/output error")
           ["int"; "string"]
  = (with_items cache_live (snapshot_saved ∪ items cache_live),
     Some "close db.dat: input/output error").
Proof.
  assert (gob_Decode ["int"; "string"] frames_saved = (snapshot_saved, None))
    as Hdec by (vm_compute; reflexivity).
  split; [exact Hdec|].
  exact (proj2 (proj2 (LoadFile_cases (G := ref_gob) cache_live
                         (Some "close db.dat: input/output error")
                         ["int"; "string"]))
           frames_saved snapshot_saved Hdec).
Defined.

(** Without a database file [Start] serves an empty table. *)
Lemma Start_spec_witness :
  stat_ok no_file = false /\
  exists srv, Start NewConfig no_file [] = inr srv /\
              items (store (storage srv)) = ∅.
Proof.
  split; [reflexivity|].
  exact (proj1 (Start_spec (G := ref_gob) NewConfig no_file []) eq_refl).
Defined.

(** GET /loadItems on a file that cannot be decoded answers 500 and leaves
    the server as it was. *)
Lemma HandleLoad_spec_witness :
  let os := {| stat_ok := true; open_result := inl [None];
               create_error := None; write_error := None;
               close_error := None |} in
  gob_Decode (types (storage server0)) [None] = (∅, Some "unexpected EOF") /\
  HandleLoad server0 os
    = (server0, ErrorMessage StatusInternalServerError "couldn't load db").
Proof.
  intros os.
  assert (gob_Decode (types (storage server0)) [None]
          = (∅, Some "unexpected EOF")) as Hdec by reflexivity.
  split; [exact Hdec|].
  exact (proj1 (proj2 (proj2 (HandleLoad_spec (G := ref_gob) server0 os)))
           eq_refl [None] ∅ "unexpected EOF" eq_refl Hdec).
Defined.
